(** * Verse selection of the Krishna108 devotional platform

    A shallow embedding of [src/lib/verse-selector.ts] (scripture tables,
    [getNextSequentialVerse], [hasVerseBeenPublishedRecently],
    [getNextVerse]) together with the two history readers of the Supabase
    module it awaits ([getLastPublishedVerse], [getAllPosts]), and the
    properties of the selection algorithm stated in the specification. *)

From Stdlib Require Import ZArith List Bool Lia String Ascii DecimalString.
From Stdlib Require Import DecimalPos DecimalZ.
Import ListNotations.
Local Open Scope string_scope.
Local Open Scope list_scope.
Local Open Scope Z_scope.

(** ** JavaScript numbers

    Chapter and verse are JavaScript [number]s.  The selector only ever
    adds one to them, compares them and uses them as property keys, so the
    model keeps the integer-valued numbers exactly and one more value, [NaN],
    which is what [Number] yields on a malformed component of a stored
    reference text. *)

Inductive number : Type :=
| Int (z : Z)
| NaN.

(** Structural equality of numbers, for comparing references in proofs
    (the selector itself never compares two numbers with [===]). *)
Definition number_eqb (a b : number) : bool :=
  match a, b with
  | Int x, Int y => x =? y
  | NaN, NaN => true
  | _, _ => false
  end.

(** [a < b] where [b] is the result of a property access: [None] stands
    for [undefined], and every comparison with [undefined] or [NaN] is
    false. *)
Definition js_lt (a : number) (b : option Z) : bool :=
  match a, b with
  | Int x, Some y => x <? y
  | _, _ => false
  end.

(** [a + 1]. *)
Definition js_succ (a : number) : number :=
  match a with
  | Int x => Int (x + 1)
  | NaN => NaN
  end.

(** Template-literal conversion of a number: an integer prints in decimal
    (as JavaScript does below 10^21), with a minus sign when negative. *)
Definition number_to_string (a : number) : string :=
  match a with
  | Int x => NilZero.string_of_int (Z.to_int x)
  | NaN => "NaN"
  end.

(** ** Scripture metadata *)

Inductive Source : Type :=
| BhagavadGita
| SrimadBhagavatam.

Definition Source_eqb (a b : Source) : bool :=
  match a, b with
  | BhagavadGita, BhagavadGita => true
  | SrimadBhagavatam, SrimadBhagavatam => true
  | _, _ => false
  end.

Definition otherSource (s : Source) : Source :=
  match s with
  | BhagavadGita => SrimadBhagavatam
  | SrimadBhagavatam => BhagavadGita
  end.

(** An object literal with numeric keys, kept as the list of its entries. *)
Definition table (A : Type) : Type := list (Z * A).

Fixpoint lookup {A : Type} (k : Z) (t : table A) : option A :=
  match t with
  | [] => None
  | (k', a) :: t' => if k =? k' then Some a else lookup k t'
  end.

(** Property access [t[key]]: [undefined] ([None]) on a missing key; it
    never throws. *)
Definition get {A : Type} (t : table A) (key : number) : option A :=
  match key with
  | Int k => lookup k t
  | NaN => None
  end.

Definition BHAGAVAD_GITA_STRUCTURE : table Z :=
  [ (1, 46); (2, 72); (3, 43); (4, 42); (5, 29); (6, 47); (7, 30); (8, 28);
    (9, 34); (10, 42); (11, 55); (12, 20); (13, 35); (14, 27); (15, 20);
    (16, 24); (17, 28); (18, 78) ].

Definition SRIMAD_BHAGAVATAM_STRUCTURE : table (table Z) :=
  [ (1, [ (1, 23); (2, 34); (3, 44); (4, 33); (5, 40); (6, 38); (7, 58);
          (8, 52); (9, 49); (10, 70); (11, 39); (12, 36); (13, 60);
          (14, 43); (15, 51); (16, 36); (17, 46); (18, 50); (19, 43) ]) ].

(** ** Verse references *)

Record VerseReference : Type := mkVerse {
  source : Source;
  chapter : number;
  verse : number
}.

Definition VerseReference_eqb (a b : VerseReference) : bool :=
  Source_eqb (source a) (source b)
  && number_eqb (chapter a) (chapter b)
  && number_eqb (verse a) (verse b).

(** ** The sequencer *)

(** [SRIMAD_BHAGAVATAM_STRUCTURE[canto]] with the constant [canto = 1],
    which the table defines. *)
Definition canto : Z := 1.

Definition cantoTable : table Z :=
  match lookup canto SRIMAD_BHAGAVATAM_STRUCTURE with
  | Some t => t
  | None => []
  end.

Definition getNextSequentialVerse (current : VerseReference) : VerseReference :=
  match source current with
  | BhagavadGita =>
      let maxVersesInChapter := get BHAGAVAD_GITA_STRUCTURE (chapter current) in
      if js_lt (verse current) maxVersesInChapter then
        mkVerse BhagavadGita (chapter current) (js_succ (verse current))
      else if js_lt (chapter current) (Some 18) then
        mkVerse BhagavadGita (js_succ (chapter current)) (Int 1)
      else
        mkVerse SrimadBhagavatam (Int 1) (Int 1)
  | SrimadBhagavatam =>
      let maxVersesInChapter := get cantoTable (chapter current) in
      if js_lt (verse current) maxVersesInChapter then
        mkVerse SrimadBhagavatam (chapter current) (js_succ (verse current))
      else if js_lt (chapter current) (Some 19) then
        mkVerse SrimadBhagavatam (js_succ (chapter current)) (Int 1)
      else
        mkVerse BhagavadGita (Int 1) (Int 1)
  end.

(** ** The canon: what the specification calls a valid reference *)

Definition chapterCount (s : Source) : Z :=
  match s with
  | BhagavadGita => 18
  | SrimadBhagavatam => 19
  end.

(** The table lookup the sequencer performs for a source and a chapter. *)
Definition versesInChapter (s : Source) (c : number) : option Z :=
  match s with
  | BhagavadGita => get BHAGAVAD_GITA_STRUCTURE c
  | SrimadBhagavatam => get cantoTable c
  end.

Definition validb (r : VerseReference) : bool :=
  match chapter r, verse r with
  | Int c, Int v =>
      (1 <=? c) && (c <=? chapterCount (source r))
      && (1 <=? v)
      && match versesInChapter (source r) (Int c) with
         | Some n => v <=? n
         | None => false
         end
  | _, _ => false
  end.

Definition valid (r : VerseReference) : Prop := validb r = true.

(** [iter n f x] is [f] applied [n] times to [x]. *)
Fixpoint iter {A : Type} (n : nat) (f : A -> A) (x : A) : A :=
  match n with
  | O => x
  | S n' => iter n' f (f x)
  end.

(** The first [n] points of the walk that starts at [x]. *)
Fixpoint orbit {A : Type} (n : nat) (f : A -> A) (x : A) : list A :=
  match n with
  | O => []
  | S n' => x :: orbit n' f (f x)
  end.

Definition totalVerses : nat := 1545.

Definition firstVerse : VerseReference := mkVerse BhagavadGita (Int 1) (Int 1).

(** Every reference of the canon, in ring order from Bhagavad Gita 1.1. *)
Definition canon : list VerseReference :=
  orbit totalVerses getNextSequentialVerse firstVerse.

(** All valid references, listed from the tables: chapter by chapter,
    verse by verse. *)
Definition verseNumbers (n : Z) : list Z :=
  map Z.of_nat (seq 1 (Z.to_nat n)).

Definition chapterRefs (s : Source) (entry : Z * Z) : list VerseReference :=
  map (fun v => mkVerse s (Int (fst entry)) (Int v)) (verseNumbers (snd entry)).

Definition allRefs : list VerseReference :=
  flat_map (chapterRefs BhagavadGita) BHAGAVAD_GITA_STRUCTURE
  ++ flat_map (chapterRefs SrimadBhagavatam) cantoTable.

(** A boolean check that a list of references has no repetition. *)
Fixpoint nodupb (l : list VerseReference) : bool :=
  match l with
  | [] => true
  | x :: l' => negb (existsb (VerseReference_eqb x) l') && nodupb l'
  end.

(** ** Errors, results and the history collaborator

    What can be thrown: an [Error] or a [TypeError], each with its message. *)

Inductive error : Type :=
| Error (message : string)
| TypeError (message : string).

Definition message (e : error) : string :=
  match e with
  | Error m => m
  | TypeError m => m
  end.

Definition isTypeError (e : error) : bool :=
  match e with
  | TypeError _ => true
  | Error _ => false
  end.

(** How an awaited call settles: with a value, or by throwing. *)
Inductive result (A : Type) : Type :=
| Ok (a : A)
| Throw (e : error).

Arguments Ok {A} a.
Arguments Throw {A} e.

(** The fields of a [Post] that the selector reads; [createdAt] is the
    instant of the [Date], in milliseconds. *)
Record Post : Type := mkPost {
  scriptureSource : Source;
  verseReference : string;
  createdAt : Z
}.

(** The surroundings of one invocation: how the call of
    [getLastPublishedVerse] settles, how the [k]-th call of [getAllPosts]
    settles, and what the [k]-th [new Date()] reads. *)
Record World : Type := mkWorld {
  lastVerse : result (option VerseReference);
  allPosts : nat -> result (list Post);
  clock : nat -> Z
}.

(** The reads performed so far. *)
Record Reads : Type := mkReads {
  lastReads : nat;     (* calls of getLastPublishedVerse *)
  postLoads : nat;     (* calls of getAllPosts *)
  clockReads : nat     (* evaluations of new Date() *)
}.

Definition noReads : Reads := mkReads 0 0 0.

(** Computations of the selector: they read the world, count their reads,
    and either return, throw, or ([None]) exhaust the fuel of the model. *)
Definition M (A : Type) : Type := World -> Reads -> option (result A * Reads).

Definition ret {A : Type} (a : A) : M A :=
  fun _ t => Some (Ok a, t).

Definition throw {A : Type} (e : error) : M A :=
  fun _ t => Some (Throw e, t).

Definition outOfFuel {A : Type} : M A :=
  fun _ _ => None.

Definition bind {A B : Type} (m : M A) (k : A -> M B) : M B :=
  fun w t =>
    match m w t with
    | Some (Ok a, t') => k a w t'
    | Some (Throw e, t') => Some (Throw e, t')
    | None => None
    end.

Notation "x <- m ;; k" := (bind m (fun x => k))
  (at level 61, m at next level, right associativity).

Definition run {A : Type} (m : M A) (w : World) : option (result A * Reads) :=
  m w noReads.

(** The two functions imported from the Supabase module, as the selector
    sees them. *)
Definition getLastPublishedVerse : M (option VerseReference) :=
  fun w t =>
    Some (lastVerse w,
          mkReads (S (lastReads t)) (postLoads t) (clockReads t)).

Definition getAllPosts : M (list Post) :=
  fun w t =>
    Some (allPosts w (postLoads t),
          mkReads (lastReads t) (S (postLoads t)) (clockReads t)).

(** [new Date()]. *)
Definition newDate : M Z :=
  fun w t =>
    Some (Ok (clock w (clockReads t)),
          mkReads (lastReads t) (postLoads t) (S (clockReads t))).

Definition msPerDay : Z := 86400000.

(** [d.setDate(d.getDate() - days)]: the instant [days] calendar days
    earlier at the same time of day (days of 24 hours, as in a zone
    without clock changes). *)
Definition subDays (d days : Z) : Z := d - days * msPerDay.

(** ** The recency filter *)

Definition formatVerseReference (v : VerseReference) : string :=
  (match source v with
   | BhagavadGita => "Bhagavad Gita"
   | SrimadBhagavatam => "Srimad Bhagavatam"
   end ++ " " ++ number_to_string (chapter v) ++ "."
   ++ number_to_string (verse v))%string.

(** The template [`${verse.chapter}.${verse.verse}`]. *)
Definition verseString (v : VerseReference) : string :=
  (number_to_string (chapter v) ++ "." ++ number_to_string (verse v))%string.

(** The callback given to [allPosts.some]. *)
Definition isRecentUse (v : VerseReference) (cutoffDate : Z) (post : Post) : bool :=
  let matchesVerse := String.eqb (verseReference post) (verseString v) in
  let matchesSource := Source_eqb (scriptureSource post) (source v) in
  let isRecent := createdAt post >=? cutoffDate in
  matchesVerse && matchesSource && isRecent.

Definition hasVerseBeenPublishedRecently (v : VerseReference) (days : Z) : M bool :=
  allPosts <- getAllPosts ;;
  now <- newDate ;;
  let cutoffDate := subDays now days in
  ret (existsb (isRecentUse v cutoffDate) allPosts).

(** ** The selector *)

Definition maxAttempts : Z := 1000.

Definition exhausted : error :=
  Error ("Unable to find a verse that has not been published in the last 365 days. "
         ++ "This should not happen with proper scripture coverage.")%string.

(** The [while] loop of [getNextVerse]; [fuel] bounds the number of
    evaluations of its condition, of which the guard on [attempts] allows
    at most [maxAttempts] ([getNextVerse_total] below). *)
Fixpoint recencyLoop (fuel : nat) (nextVerse : VerseReference) (attempts : Z)
  : M VerseReference :=
  match fuel with
  | O => outOfFuel
  | S fuel' =>
      recent <- hasVerseBeenPublishedRecently nextVerse 365 ;;
      if recent : bool then
        let nextVerse' := getNextSequentialVerse nextVerse in
        let attempts' := attempts + 1 in
        if attempts' >=? maxAttempts then throw exhausted
        else recencyLoop fuel' nextVerse' attempts'
      else ret nextVerse
  end.

Definition getNextVerse : M VerseReference :=
  lastVerse <- getLastPublishedVerse ;;
  match lastVerse with
  | None => ret (mkVerse BhagavadGita (Int 1) (Int 1))
  | Some lastVerse =>
      recencyLoop (Z.to_nat maxAttempts) (getNextSequentialVerse lastVerse) 0
  end.

(** ** What the theorems speak about *)

(** A world whose history and clock do not change during the invocation. *)
Definition stableWorld (last : option VerseReference) (history : list Post)
                       (now : Z) : World :=
  mkWorld (Ok last) (fun _ => Ok history) (fun _ => now).

(** The decision of the recency filter on a given history at a given
    instant. *)
Definition recentIn (history : list Post) (now : Z) (v : VerseReference) : bool :=
  existsb (isRecentUse v (subDays now 365)) history.

(** The candidates of the loop: [candidate last 0] is the successor of
    [last], [candidate last 1] the successor of that, and so on. *)
Definition candidate (last : VerseReference) (k : nat) : VerseReference :=
  iter (S k) getNextSequentialVerse last.

(** The index below [n] of the first candidate from [v] on that the filter
    does not reject, if there is one, when the history is [history] and the
    candidates are examined at the clock readings [times c], [times (c + 1)],
    and so on. *)
Fixpoint firstAccepted (history : list Post) (times : nat -> Z) (c : nat)
                       (v : VerseReference) (n : nat) : option nat :=
  match n with
  | O => None
  | S n' =>
      if recentIn history (times c) v then
        option_map S (firstAccepted history times (S c)
                                    (getNextSequentialVerse v) n')
      else Some O
  end.

(** ** The Supabase module: the two history readers

    What the awaited client query does is the input: it either rejects
    (a thrown error, such as the [TypeError] of a failed fetch, or the
    error of a missing configuration), or resolves to a pair
    [{ data, error }]. *)

(** [s.split(sep)] for a one-character separator. *)
Fixpoint split (sep : ascii) (s : string) : list string :=
  match s with
  | EmptyString => [EmptyString]
  | String c s' =>
      if Ascii.eqb c sep then EmptyString :: split sep s'
      else match split sep s' with
           | [] => [String c EmptyString]
           | part :: parts => String c part :: parts
           end
  end.

(** [s.includes(needle)]. *)
Fixpoint includes (s needle : string) : bool :=
  String.prefix needle s
  || match s with
     | EmptyString => false
     | String _ s' => includes s' needle
     end.

Module Supabase.

Record PostgrestError : Type := mkPostgrestError {
  code : string;
  errorMessage : string
}.

Inductive Query (D : Type) : Type :=
| Rejects (e : error)
| Resolves (data : option D) (err : option PostgrestError).

Arguments Rejects {D} e.
Arguments Resolves {D} data err.

(** The columns selected by [getLastPublishedVerse]. *)
Record VerseColumns : Type := mkVerseColumns {
  scripture_source : Source;
  verse_reference : string
}.

(** The columns of a row that [rowToPost] copies into the fields of
    [Post] kept here; [created_at] is the instant that
    [new Date(row.created_at)] denotes. *)
Record PostRow : Type := mkPostRow {
  row_scripture_source : Source;
  row_verse_reference : string;
  row_created_at : Z
}.

Definition rowToPost (row : PostRow) : Post :=
  mkPost (row_scripture_source row) (row_verse_reference row)
         (row_created_at row).

Section Client.

(** The builtin conversion [Number] of a string. *)
Variable Number : string -> number.

(** The [catch] block of [getLastPublishedVerse]. *)
Definition catchBlock (e : error) : result (option VerseReference) :=
  if isTypeError e && includes (message e) "fetch failed" then Ok None
  else Throw e.

Definition getLastPublishedVerse (q : Query VerseColumns)
  : result (option VerseReference) :=
  match q with
  | Rejects e => catchBlock e
  | Resolves _ (Some err) =>
      if String.eqb (code err) "PGRST116" then Ok None
      else catchBlock
             (Error ("Failed to get last published verse: "
                     ++ errorMessage err)%string)
  | Resolves None None => Ok None
  | Resolves (Some data) None =>
      let parts := map Number (split "." (verse_reference data)) in
      Ok (Some (mkVerse (scripture_source data)
                        (hd NaN parts) (last parts NaN)))
  end.

Definition getAllPosts (q : Query (list PostRow)) : result (list Post) :=
  match q with
  | Rejects e => Throw e
  | Resolves _ (Some err) =>
      Throw (Error ("Failed to get all posts: " ++ errorMessage err)%string)
  | Resolves None None => Ok []
  | Resolves (Some rows) None => Ok (map rowToPost rows)
  end.

(** The world that the module presents to the selector, given what
    the client does on each query. *)
Definition world (lastQuery : Query VerseColumns)
                 (postQueries : nat -> Query (list PostRow))
                 (clock : nat -> Z) : World :=
  mkWorld (getLastPublishedVerse lastQuery)
          (fun k => getAllPosts (postQueries k))
          clock.

End Client.

End Supabase.

(** ** The recency rule as the specification words it

    The specification describes the filter as parsing the stored text:
    dot-separated integers, the first is the chapter, the last is the
    verse, what lies between is ignored.  [spec_isRecentUse] follows those
    words, to be compared with [isRecentUse]. *)

Definition digitValue (c : ascii) : option Z :=
  let n := Z.of_nat (nat_of_ascii c) in
  if (48 <=? n) && (n <=? 57) then Some (n - 48) else None.

Fixpoint readDigits (acc : Z) (s : string) : option Z :=
  match s with
  | EmptyString => Some acc
  | String c s' =>
      match digitValue c with
      | Some d => readDigits (10 * acc + d) s'
      | None => None
      end
  end.

(** An unsigned decimal integer, or [NaN] for any other text. *)
Definition readDecimal (s : string) : number :=
  match s with
  | EmptyString => NaN
  | _ => match readDigits 0 s with
         | Some z => Int z
         | None => NaN
         end
  end.

Definition spec_parseReference (text : string) : number * number :=
  let parts := map readDecimal (split "." text) in
  (hd NaN parts, last parts NaN).

Definition sameInteger (a b : number) : bool :=
  match a, b with
  | Int x, Int y => x =? y
  | _, _ => false
  end.

Definition spec_isRecentUse (v : VerseReference) (cutoffDate : Z) (post : Post)
  : bool :=
  let (storedChapter, storedVerse) := spec_parseReference (verseReference post) in
  Source_eqb (scriptureSource post) (source v)
  && sameInteger storedChapter (chapter v)
  && sameInteger storedVerse (verse v)
  && (createdAt post >=? cutoffDate).

(** Every load of the posts during the invocation returns the same
    history. *)
Definition SameHistory (w : World) (history : list Post) : Prop :=
  forall k, allPosts w k = Ok history.

(** [n] more evaluations of the filter: [n] loads of the posts and [n]
    readings of the clock. *)
Definition addChecks (n : nat) (t : Reads) : Reads :=
  mkReads (lastReads t) (postLoads t + n) (clockReads t + n).

(** The evaluation of the table lookup of the sequencer, as a step that
    could return or throw: a property access returns, with [undefined]
    ([None]) where the table has no such chapter. *)
Definition lookupVerses (s : Source) (c : number) : result (option Z) :=
  Ok (versesInChapter s c).

(** The sum of the verse counts of a table. *)
Definition verseTotal (t : table Z) : Z :=
  fold_right (fun entry acc => snd entry + acc) 0 t.

(** ** Sample worlds *)

Definition sampleNow : Z := 1800000000000.

(** One post for each of the first [n] successors of [last], all one day
    old. *)
Definition postsAfter (last : VerseReference) (n : nat) : list Post :=
  map (fun v => mkPost (source v) (verseString v) (subDays sampleNow 1))
      (orbit n getNextSequentialVerse (getNextSequentialVerse last)).

Definition lastOfCanon : VerseReference :=
  mkVerse SrimadBhagavatam (Int 19) (Int 43).

Definition gita_2_13 : VerseReference := mkVerse BhagavadGita (Int 2) (Int 13).
Definition gita_2_15 : VerseReference := mkVerse BhagavadGita (Int 2) (Int 15).

(** The last post was Bhagavad Gita 2.13 and 2.14 was posted 100 days
    ago. *)
Definition oneBlockWorld : World :=
  stableWorld (Some gita_2_13)
              [mkPost BhagavadGita "2.14" (subDays sampleNow 100)] sampleNow.

(** The last post was Bhagavad Gita 1.1 and each of its next 1000
    successors was posted yesterday. *)
Definition crowdedWorld : World :=
  stableWorld (Some firstVerse) (postsAfter firstVerse 1000) sampleNow.

(** The last post was the last verse of the canon and each of its next
    1000 successors was posted yesterday. *)
Definition thousandBlockedWorld : World :=
  stableWorld (Some lastOfCanon) (postsAfter lastOfCanon 1000) sampleNow.

(** The load of the posts succeeds once, showing 2.14 as posted 100 days
    ago, and then fails. *)
Definition timeoutError : error := Error "Failed to get all posts: timeout".

Definition failingLoadWorld : World :=
  mkWorld (Ok (Some gita_2_13))
          (fun k => match k with
                    | O => Ok [mkPost BhagavadGita "2.14" (subDays sampleNow 100)]
                    | S _ => Throw timeoutError
                    end)
          (fun _ => sampleNow).

(** The database answers the query for the last post with an error. *)
Definition failingLastWorld : World :=
  Supabase.world readDecimal
    (Supabase.Resolves None (Some (Supabase.mkPostgrestError "57014" "timeout")))
    (fun _ => Supabase.Resolves (Some []) None)
    (fun _ => sampleNow).

(** A stored three-part reference text, 100 days old. *)
Definition threePartPost : Post :=
  mkPost SrimadBhagavatam "1.2.3" (subDays sampleNow 100).

Definition bhagavatam_1_3 : VerseReference :=
  mkVerse SrimadBhagavatam (Int 1) (Int 3).

(** Case analysis of a lookup key against the keys of a literal table. *)
Ltac split_key c :=
  repeat match goal with
         | |- context [Z.eqb c ?k] => destruct (Z.eqb_spec c k); [subst c|]
         end.

(** ** The publishing route: what it stores for a verse

    The [POST] handler of the route saves the selected verse with
    [scriptureSource: verse.source] and
    [verseReference: `${verse.chapter}.${verse.verse}`]; the database
    sets the creation date. *)

Definition savedVerseReference (v : VerseReference) : string :=
  (number_to_string (chapter v) ++ "." ++ number_to_string (verse v))%string.


(** [parts.join(sep)]. *)
Fixpoint join (sep : string) (parts : list string) : string :=
  match parts with
  | [] => EmptyString
  | [part] => part
  | part :: rest => (part ++ sep ++ join sep rest)%string
  end.

(** The string has no occurrence of the character. *)
Fixpoint lacks (c : ascii) (s : string) : bool :=
  match s with
  | EmptyString => true
  | String c' s' => negb (Ascii.eqb c' c) && lacks c s'
  end.


(** ** The publishing route: rate limiting and authentication *)

Record RateLimitEntry : Type := mkEntry {
  count : Z;
  resetTime : Z
}.

(** The [Map] from identifiers to entries, with its [get], [set] and
    [delete]. *)
Definition RateLimitStore : Type := string -> option RateLimitEntry.

Definition emptyStore : RateLimitStore := fun _ => None.

Definition storeSet (key : string) (entry : RateLimitEntry)
                    (store : RateLimitStore) : RateLimitStore :=
  fun k => if String.eqb k key then Some entry else store k.

Definition storeDelete (key : string) (store : RateLimitStore) : RateLimitStore :=
  fun k => if String.eqb k key then None else store k.

Definition RATE_LIMIT_MAX_REQUESTS : Z := 5.

Definition RATE_LIMIT_WINDOW_MS : Z := 60 * 60 * 1000.

(** [checkRateLimit(identifier)], with the reading of [Date.now()] and the
    store before the call as inputs; it returns its answer and the store
    after the call. *)
Definition checkRateLimit (identifier : string) (now : Z)
                          (store : RateLimitStore) : bool * RateLimitStore :=
  let entry := store identifier in
  let store :=
    match entry with
    | Some e => if now >? resetTime e then storeDelete identifier store
                else store
    | None => store
    end in
  match store identifier with
  | None =>
      (true,
       storeSet identifier (mkEntry 1 (now + RATE_LIMIT_WINDOW_MS)) store)
  | Some currentEntry =>
      if count currentEntry >=? RATE_LIMIT_MAX_REQUESTS then (false, store)
      else (true,
            storeSet identifier
              (mkEntry (count currentEntry + 1) (resetTime currentEntry))
              store)
  end.

(** Successive calls for one identifier at the given instants. *)
Fixpoint serve (identifier : string) (times : list Z) (store : RateLimitStore)
  : list bool * RateLimitStore :=
  match times with
  | [] => ([], store)
  | now :: later =>
      let (allowed, store1) := checkRateLimit identifier now store in
      let (answers, store2) := serve identifier later store1 in
      (allowed :: answers, store2)
  end.

(** A value that a condition takes as true: a string that is neither
    absent nor empty. *)
Definition truthy (s : option string) : bool :=
  match s with
  | Some (String _ _) => true
  | _ => false
  end.

Fixpoint skip (n : nat) (s : string) : string :=
  match n, s with
  | O, _ => s
  | S n', String _ s' => skip n' s'
  | S _, EmptyString => EmptyString
  end.

(** [s.replace(pattern, replacement)] for a string pattern: the first
    occurrence is replaced. *)
Fixpoint replaceFirst (pattern replacement s : string) : string :=
  if String.prefix pattern s then
    (replacement ++ skip (String.length pattern) s)%string
  else
    match s with
    | EmptyString => EmptyString
    | String c s' => String c (replaceFirst pattern replacement s')
    end.

(** [validateAuth(request)]: the inputs are [process.env.API_SECRET_TOKEN],
    the [authorization] header and the [token] query parameter, each absent
    or a string. *)
Definition validateAuth (apiSecretToken authHeader tokenParam : option string)
  : bool :=
  if negb (truthy apiSecretToken) then false
  else if truthy authHeader then
    match authHeader, apiSecretToken with
    | Some header, Some secret =>
        String.eqb (replaceFirst "Bearer " "" header) secret
    | _, _ => false
    end
  else if truthy tokenParam then
    match tokenParam, apiSecretToken with
    | Some token, Some secret => String.eqb token secret
    | _, _ => false
    end
  else false.

(** ** The slug generator

    Strings are taken to hold ASCII characters only, one character per
    code unit; on them [toLowerCase] changes the letters [A] to [Z] only,
    and the class [\s] is tab, line feed, vertical tab, form feed, carriage
    return and space. *)

Definition codeOf (c : ascii) : nat := nat_of_ascii c.

Definition isAsciiChar (c : ascii) : bool := (codeOf c <? 128)%nat.

Fixpoint allChars (p : ascii -> bool) (s : string) : bool :=
  match s with
  | EmptyString => true
  | String c s' => p c && allChars p s'
  end.

Definition isAscii (s : string) : Prop := allChars isAsciiChar s = true.

Definition isUpper (c : ascii) : bool :=
  ((65 <=? codeOf c) && (codeOf c <=? 90))%nat.

Definition lowerChar (c : ascii) : ascii :=
  if isUpper c then ascii_of_nat (codeOf c + 32) else c.

Definition isWhitespace (c : ascii) : bool :=
  ((9 <=? codeOf c) && (codeOf c <=? 13) || (codeOf c =? 32))%nat.

Definition isHyphen (c : ascii) : bool := (codeOf c =? 45)%nat.

(** The class [[a-z0-9-]]. *)
Definition isSlugChar (c : ascii) : bool :=
  ((97 <=? codeOf c) && (codeOf c <=? 122)
   || (48 <=? codeOf c) && (codeOf c <=? 57)
   || (codeOf c =? 45))%nat.

Fixpoint mapChars (f : ascii -> ascii) (s : string) : string :=
  match s with
  | EmptyString => EmptyString
  | String c s' => String (f c) (mapChars f s')
  end.

(** [s.toLowerCase()]. *)
Definition toLowerCase (s : string) : string := mapChars lowerChar s.

(** [s.replace(/C+/g, '-')] for a character class [C]: every maximal run
    of characters of the class becomes one hyphen.  [inRun] tells that the
    previous character was of the class. *)
Fixpoint replaceRuns (p : ascii -> bool) (inRun : bool) (s : string) : string :=
  match s with
  | EmptyString => EmptyString
  | String c s' =>
      if p c then
        if inRun then replaceRuns p true s'
        else String "-" (replaceRuns p true s')
      else String c (replaceRuns p false s')
  end.

(** [s.replace(/[^C]/g, '')]: the characters of the class are kept. *)
Fixpoint keepChars (p : ascii -> bool) (s : string) : string :=
  match s with
  | EmptyString => EmptyString
  | String c s' => if p c then String c (keepChars p s') else keepChars p s'
  end.

Fixpoint dropLeading (p : ascii -> bool) (s : string) : string :=
  match s with
  | EmptyString => EmptyString
  | String c s' => if p c then dropLeading p s' else s
  end.

Fixpoint dropTrailing (p : ascii -> bool) (s : string) : string :=
  match s with
  | EmptyString => EmptyString
  | String c s' =>
      match dropTrailing p s' with
      | EmptyString => if p c then EmptyString else String c EmptyString
      | rest => String c rest
      end
  end.

(** [s.replace(/^-+|-+$/g, '')]. *)
Definition trimHyphens (s : string) : string :=
  dropTrailing isHyphen (dropLeading isHyphen s).

(** [s.slice(0, n)] for [n >= 0]. *)
Fixpoint take (n : nat) (s : string) : string :=
  match n, s with
  | O, _ => EmptyString
  | S n', String c s' => String c (take n' s')
  | S _, EmptyString => EmptyString
  end.

Definition generateSlug (title : string) : string :=
  take 100
    (trimHyphens
       (replaceRuns isHyphen false
          (keepChars isSlugChar
             (replaceRuns isWhitespace false
                (toLowerCase title))))).

(** [existingSlugs.includes(slug)]. *)
Definition includesSlug (existingSlugs : list string) (slug : string) : bool :=
  existsb (String.eqb slug) existingSlugs.

(** The template [`${slug}-${counter}`]. *)
Definition numbered (slug : string) (counter : Z) : string :=
  (slug ++ "-" ++ number_to_string (Int counter))%string.

(** The [while] loop of [ensureUnique]: the first counter from [counter]
    on whose numbered slug is not taken; [fuel] bounds the number of
    evaluations of the condition. *)
Fixpoint firstFreeCounter (fuel : nat) (slug : string)
                          (existingSlugs : list string) (counter : Z)
  : option Z :=
  match fuel with
  | O => None
  | S fuel' =>
      if includesSlug existingSlugs (numbered slug counter) then
        firstFreeCounter fuel' slug existingSlugs (counter + 1)
      else Some counter
  end.

(** [s.slice(0, end)], also for a negative [end], which counts from the
    end of the string. *)
Definition sliceTo (finish : Z) (s : string) : string :=
  if finish <? 0 then
    take (Z.to_nat (Z.max 0 (Z.of_nat (String.length s) + finish))) s
  else take (Z.to_nat finish) s.

(** [ensureUnique(slug, existingSlugs)], on strings seen as sequences of
    code units; [None] would be a loop that outlives its fuel, which does
    not happen: the numbered slugs are pairwise distinct and the loop is
    given one evaluation more than there are existing slugs. *)
Definition ensureUnique (slug : string) (existingSlugs : list string)
  : option string :=
  if negb (includesSlug existingSlugs slug) then Some slug
  else
    match firstFreeCounter (S (List.length existingSlugs)) slug existingSlugs 2
    with
    | None => None
    | Some counter =>
        let uniqueSlug := numbered slug counter in
        if (100 <? String.length uniqueSlug)%nat then
          let suffix := ("-" ++ number_to_string (Int counter))%string in
          let maxBaseLength := 100 - Z.of_nat (String.length suffix) in
          let trimmedBase := sliceTo maxBaseLength slug in
          Some (trimmedBase ++ suffix)%string
        else Some uniqueSlug
    end.

(** What a well-formed slug is. *)
Definition startsWithHyphen (s : string) : bool :=
  match s with
  | String c _ => isHyphen c
  | EmptyString => false
  end.

Fixpoint endsWithHyphen (s : string) : bool :=
  match s with
  | EmptyString => false
  | String c EmptyString => isHyphen c
  | String _ s' => endsWithHyphen s'
  end.

Fixpoint noDoubleHyphen (s : string) : bool :=
  match s with
  | EmptyString => true
  | String c s' =>
      negb (isHyphen c && startsWithHyphen s') && noDoubleHyphen s'
  end.

(** ** The content validator

    As for slugs, strings are taken to hold ASCII characters only. *)

(** [s.trim()]. *)
Definition trim (s : string) : string :=
  dropTrailing isWhitespace (dropLeading isWhitespace s).

(** [s.split(/C+/)] for a character class [C]: the pieces between the
    maximal runs of characters of the class, empty pieces at the ends
    included.  [inRun] tells that the previous character was of the
    class. *)
Fixpoint splitRuns (p : ascii -> bool) (inRun : bool) (s : string)
  : list string :=
  match s with
  | EmptyString => [EmptyString]
  | String c s' =>
      if p c then
        if inRun then splitRuns p true s'
        else EmptyString :: splitRuns p true s'
      else
        match splitRuns p false s' with
        | [] => [String c EmptyString]
        | piece :: pieces => String c piece :: pieces
        end
  end.

(** [s.split(/\s+/).filter(word => word.length > 0).length]. *)
Definition countWords (s : string) : nat :=
  List.length
    (filter (fun word => (0 <? String.length word)%nat)
            (splitRuns isWhitespace false s)).

Module ContentParser.

Record GeneratedContent : Type := mkContent {
  title : string;
  verseExcerpt : string;
  explanation : string;
  reflection : string;
  practicalApplication : string;
  closingLine : string;
  seoDescription : string;
  wordCount : Z
}.

Record ValidationResult : Type := mkResult {
  valid : bool;
  errors : list string
}.

(** [!field || field.trim().length === 0]. *)
Definition isBlank (field : string) : bool :=
  match field with
  | EmptyString => true
  | _ => (String.length (trim field) =? 0)%nat
  end.

(** A string that a condition takes as true. *)
Definition nonEmpty (field : string) : bool :=
  match field with
  | EmptyString => false
  | _ => true
  end.

(** One conditional [errors.push(...)]. *)
Definition pushIf (condition : bool) (text : string) : list string :=
  if condition then [text] else [].

Definition validate (content : GeneratedContent) : ValidationResult :=
  let errors :=
    pushIf (isBlank (title content)) "Title is required"
    ++ pushIf (isBlank (verseExcerpt content)) "Verse excerpt is required"
    ++ pushIf (isBlank (explanation content)) "Explanation is required"
    ++ pushIf (isBlank (reflection content)) "Reflection is required"
    ++ pushIf (isBlank (practicalApplication content))
              "Practical application is required"
    ++ pushIf (isBlank (closingLine content)) "Closing line is required"
    ++ pushIf (isBlank (seoDescription content)) "SEO description is required"
    ++ pushIf (nonEmpty (title content)
               && ((String.length (title content) <? 1)
                   || (100 <? String.length (title content)))%nat)
              "Title must be between 1 and 100 characters"
    ++ pushIf (nonEmpty (verseExcerpt content)
               && (let verseWordCount := countWords (verseExcerpt content) in
                   (verseWordCount <? 1) || (40 <? verseWordCount))%nat)
              "Verse excerpt must be between 1 and 40 words"
    ++ pushIf (nonEmpty (seoDescription content)
               && ((String.length (seoDescription content) <? 1)
                   || (160 <? String.length (seoDescription content)))%nat)
              "SEO description must be between 1 and 160 characters"
    ++ pushIf ((wordCount content <? 700) || (900 <? wordCount content))
              ("Total word count must be between 700 and 900 words (current: "
               ++ number_to_string (Int (wordCount content)) ++ ")")%string
  in
  mkResult (List.length errors =? 0)%nat errors.

(** Every text field holds ASCII characters only. *)
Definition asciiContent (content : GeneratedContent) : Prop :=
  isAscii (title content) /\ isAscii (verseExcerpt content)
  /\ isAscii (explanation content) /\ isAscii (reflection content)
  /\ isAscii (practicalApplication content) /\ isAscii (closingLine content)
  /\ isAscii (seoDescription content).

End ContentParser.

(** A title of 101 characters: 99 letters, a space and one more letter. *)
Definition longTitle : string :=
  "aaaaaaaaaaaaaaaaaaaaaaaaaaaaaaaaaaaaaaaaaaaaaaaaaaaaaaaaaaaaaaaaaaaaaaaaaaaaaaaaaaaaaaaaaaaaaaaaaaa b".

(** * Properties of the sequencer *)

Section Walks.

Variable A : Type.
Variable f : A -> A.

Lemma iter_S_out (n : nat) (x : A) : iter (S n) f x = f (iter n f x).
Proof.
  revert x; induction n as [|n IH]; intro x; [reflexivity|].
  change (iter (S (S n)) f x) with (iter (S n) f (f x)).
  rewrite IH. reflexivity.
Qed.

Lemma iter_add (a b : nat) (x : A) :
  iter (a + b) f x = iter b f (iter a f x).
Proof.
  revert x; induction a as [|a IH]; intro x; [reflexivity|].
  simpl. apply IH.
Qed.

Lemma orbit_length (n : nat) (x : A) : List.length (orbit n f x) = n.
Proof.
  revert x; induction n as [|n IH]; intro x; simpl; [|rewrite IH]; reflexivity.
Qed.

Lemma orbit_In (n : nat) (x y : A) :
  In y (orbit n f x) -> exists k, (k < n)%nat /\ y = iter k f x.
Proof.
  revert x; induction n as [|n IH]; intros x H; simpl in H; [contradiction|].
  destruct H as [<- | H].
  - exists O. split; [lia | reflexivity].
  - destruct (IH _ H) as [k [Hk ->]].
    exists (S k). split; [lia | reflexivity].
Qed.

Lemma iter_In_orbit (n k : nat) (x : A) :
  (k < n)%nat -> In (iter k f x) (orbit n f x).
Proof.
  revert k x; induction n as [|n IH]; intros k x L; [lia|].
  destruct k as [|k]; [left; reflexivity|].
  right. apply (IH k (f x)). lia.
Qed.

(** The walk of [n + 1] points is the walk of [n] points followed by
    the point reached after [n] steps. *)
Lemma orbit_snoc (n : nat) (x : A) :
  orbit (S n) f x = orbit n f x ++ [iter n f x].
Proof.
  revert x; induction n as [|n IH]; intro x; [reflexivity|].
  change (orbit (S (S n)) f x) with (x :: orbit (S n) f (f x)).
  rewrite IH. reflexivity.
Qed.

Lemma NoDup_rotate (x : A) (l : list A) : NoDup (x :: l) -> NoDup (l ++ [x]).
Proof.
  intro H. inversion H as [|? ? Hx Hl]; subst.
  induction l as [|y l IH]; simpl.
  - constructor; [intros [] | constructor].
  - inversion Hl as [|? ? Hy Hl']; subst.
    constructor.
    + rewrite in_app_iff. intros [Hin | [Heq | []]].
      * exact (Hy Hin).
      * apply Hx. left. symmetry. exact Heq.
    + apply IH.
      * constructor; [|exact Hl']. intro Hin. apply Hx. right. exact Hin.
      * intro Hin. apply Hx. right. exact Hin.
      * exact Hl'.
Qed.

(** A closed walk without repetition stays closed and without repetition
    from each of its points. *)
Lemma cycle_from_any_point (n : nat) (s : A) :
  iter n f s = s -> NoDup (orbit n f s) ->
  forall k, iter n f (iter k f s) = iter k f s
            /\ NoDup (orbit n f (iter k f s)).
Proof.
  intros Hs Hnd k. induction k as [|k [IHc IHn]]; [split; assumption|].
  rewrite iter_S_out. split.
  - change (iter n f (f (iter k f s))) with (iter (S n) f (iter k f s)).
    rewrite iter_S_out, IHc. reflexivity.
  - destruct n as [|n]; [constructor|].
    rewrite orbit_snoc.
    assert (E : iter n f (f (iter k f s)) = iter k f s)
      by (exact IHc).
    rewrite E. apply NoDup_rotate. exact IHn.
Qed.

End Walks.

Lemma number_eqb_eq (a b : number) : number_eqb a b = true <-> a = b.
Proof.
  destruct a as [x|], b as [y|]; simpl; split; intro H;
    try reflexivity; try discriminate.
  - apply Z.eqb_eq in H. congruence.
  - injection H as ->. apply Z.eqb_refl.
Qed.

Lemma Source_eqb_eq (a b : Source) : Source_eqb a b = true <-> a = b.
Proof. destruct a, b; simpl; split; intro H; congruence. Qed.

Lemma VerseReference_eqb_eq (a b : VerseReference) :
  VerseReference_eqb a b = true <-> a = b.
Proof.
  destruct a as [s c v], b as [s' c' v']. unfold VerseReference_eqb; simpl.
  rewrite !andb_true_iff, Source_eqb_eq, !number_eqb_eq.
  split; [intros [[-> ->] ->]; reflexivity | intro H; injection H; auto].
Qed.

Lemma nodupb_NoDup (l : list VerseReference) : nodupb l = true -> NoDup l.
Proof.
  induction l as [|x l IH]; simpl; intro H; [constructor|].
  apply andb_true_iff in H. destruct H as [Hx Hl].
  constructor; [|exact (IH Hl)].
  intro Hin. apply negb_true_iff in Hx.
  assert (E : existsb (VerseReference_eqb x) l = true).
  { apply existsb_exists. exists x. split; [exact Hin|].
    apply VerseReference_eqb_eq. reflexivity. }
  congruence.
Qed.

Lemma lookup_In {A : Type} (k : Z) (t : table A) (a : A) :
  lookup k t = Some a -> In (k, a) t.
Proof.
  induction t as [|[k' a'] t IH]; simpl; [discriminate|].
  destruct (Z.eqb_spec k k') as [->|_].
  - intro H. injection H as ->. left. reflexivity.
  - intro H. right. exact (IH H).
Qed.

Lemma verseNumbers_In (n v : Z) : 1 <= v <= n -> In v (verseNumbers n).
Proof.
  intro H. unfold verseNumbers. apply in_map_iff.
  exists (Z.to_nat v). split; [lia|]. apply in_seq. lia.
Qed.

(** Every valid reference appears in the listing drawn from the tables. *)
Lemma valid_In_allRefs (r : VerseReference) : valid r -> In r allRefs.
Proof.
  destruct r as [s [c|] [v|]]; unfold valid, validb; intro H; simpl in H;
    try discriminate.
  destruct (versesInChapter s (Int c)) as [n|] eqn:E;
    [|rewrite andb_false_r in H; discriminate].
  rewrite !andb_true_iff, !Z.leb_le in H. destruct H as [[[Hc1 Hc2] Hv1] Hv2].
  unfold allRefs. apply in_or_app.
  destruct s; simpl in E; [left | right]; apply in_flat_map;
    exists (c, n); (split; [apply lookup_In; exact E|]);
    unfold chapterRefs; apply in_map_iff; exists v;
    (split; [reflexivity | apply verseNumbers_In; simpl; lia]).
Qed.

(** The walk of 1545 steps from Bhagavad Gita 1.1 lists the canon exactly
    as the tables do. *)
Lemma canon_allRefs : canon = allRefs.
Proof. vm_compute. reflexivity. Qed.

Lemma canon_NoDup : NoDup canon.
Proof. apply nodupb_NoDup. vm_compute. reflexivity. Qed.

Lemma canon_closed :
  iter totalVerses getNextSequentialVerse firstVerse = firstVerse.
Proof. vm_compute. reflexivity. Qed.

Lemma canon_valid (r : VerseReference) : In r canon -> valid r.
Proof.
  assert (H : forallb validb canon = true) by (vm_compute; reflexivity).
  rewrite forallb_forall in H. exact (H r).
Qed.

Lemma valid_on_walk (r : VerseReference) :
  valid r ->
  exists k, (k < totalVerses)%nat /\ r = iter k getNextSequentialVerse firstVerse.
Proof.
  intro H. apply orbit_In. fold canon. rewrite canon_allRefs.
  apply valid_In_allRefs. exact H.
Qed.

(** C2 — ring totality: from every valid reference, 1545 applications of
    [getNextSequentialVerse] (the 700 verses of the Bhagavad Gita table plus
    the 845 of the Canto 1 table) lead back to that reference, and the 1545
    references met on the way are pairwise distinct. *)
Theorem ring_totality (r : VerseReference) :
  valid r ->
  Z.of_nat totalVerses
  = verseTotal BHAGAVAD_GITA_STRUCTURE + verseTotal cantoTable
  /\ verseTotal BHAGAVAD_GITA_STRUCTURE = 700
  /\ verseTotal cantoTable = 845
  /\ iter totalVerses getNextSequentialVerse r = r
  /\ NoDup (orbit totalVerses getNextSequentialVerse r).
Proof.
  intro H. do 3 (split; [reflexivity|]).
  destruct (valid_on_walk _ H) as [k [_ ->]].
  apply cycle_from_any_point; [exact canon_closed | exact canon_NoDup].
Qed.

Lemma ring_totality_witness :
  valid lastOfCanon
  /\ iter totalVerses getNextSequentialVerse lastOfCanon = lastOfCanon
  /\ NoDup (orbit totalVerses getNextSequentialVerse lastOfCanon).
Proof.
  assert (V : valid lastOfCanon) by reflexivity.
  split; [exact V|].
  exact (proj2 (proj2 (proj2 (ring_totality _ V)))).
Defined.

(** The successor of a valid reference is valid. *)
Lemma next_valid (r : VerseReference) :
  valid r -> valid (getNextSequentialVerse r).
Proof.
  intro H. destruct (valid_on_walk _ H) as [k [Hk ->]].
  rewrite <- iter_S_out.
  destruct (Nat.eq_dec (S k) totalVerses) as [E | NE].
  - rewrite E, canon_closed. reflexivity.
  - apply canon_valid. unfold canon. apply iter_In_orbit. lia.
Qed.

Lemma valid_fields (r : VerseReference) :
  valid r <->
  exists c v n,
    chapter r = Int c /\ verse r = Int v
    /\ 1 <= c <= chapterCount (source r)
    /\ versesInChapter (source r) (Int c) = Some n
    /\ 1 <= v <= n.
Proof.
  destruct r as [s c v]. unfold valid, validb; simpl. split.
  - destruct c as [c|], v as [v|]; try discriminate.
    destruct (versesInChapter s (Int c)) as [n|] eqn:E;
      [|rewrite andb_false_r; discriminate].
    rewrite !andb_true_iff, !Z.leb_le. intros [[[Hc1 Hc2] Hv1] Hv2].
    exists c, v, n. repeat split; assumption.
  - intros [c' [v' [n [-> [-> [[Hc1 Hc2] [E [Hv1 Hv2]]]]]]]].
    rewrite E, !andb_true_iff, !Z.leb_le. repeat split; assumption.
Qed.

Lemma lookup_gita (c : Z) :
  match lookup c BHAGAVAD_GITA_STRUCTURE with
  | Some n => 1 <= c <= 18 /\ 0 < n
  | None => c < 1 \/ 18 < c
  end.
Proof.
  unfold BHAGAVAD_GITA_STRUCTURE, lookup.
  split_key c; try (split; lia). lia.
Qed.

Lemma lookup_canto (c : Z) :
  match lookup c cantoTable with
  | Some n => 1 <= c <= 19 /\ 0 < n
  | None => c < 1 \/ 19 < c
  end.
Proof.
  change cantoTable with
    [ (1, 23); (2, 34); (3, 44); (4, 33); (5, 40); (6, 38); (7, 58);
      (8, 52); (9, 49); (10, 70); (11, 39); (12, 36); (13, 60);
      (14, 43); (15, 51); (16, 36); (17, 46); (18, 50); (19, 43) ].
  unfold lookup.
  split_key c; try (split; lia). lia.
Qed.

Lemma lookup_never_fails_aux (s : Source) (c : Z) :
  lookupVerses s (Int c) = Ok (versesInChapter s (Int c))
  /\ match versesInChapter s (Int c) with
     | Some n => 1 <= c <= chapterCount s /\ 0 < n
     | None => c < 1 \/ chapterCount s < c
     end.
Proof.
  split; [reflexivity|].
  destruct s; simpl; [apply lookup_gita | apply lookup_canto].
Qed.

(** C5, as the code has it — the lookup of a chapter's verse count never
    fails: it returns a positive count exactly for the chapters from 1 to
    the chapter count of the source (18 and 19), and [undefined], without
    any error, for every other chapter. *)
Theorem lookup_never_fails (s : Source) (c : Z) :
  lookupVerses s (Int c) = Ok (versesInChapter s (Int c))
  /\ match versesInChapter s (Int c) with
     | Some n => 1 <= c <= chapterCount s /\ 0 < n
     | None => c < 1 \/ chapterCount s < c
     end.
Proof. exact (lookup_never_fails_aux s c). Qed.

(** C5, as the claim states it, fails: chapter 19 of the Bhagavad Gita is
    outside the table, the lookup returns [undefined] and raises nothing,
    and the sequencer goes on to return a reference. *)
Lemma lookup_out_of_range_does_not_fail :
  lookupVerses BhagavadGita (Int 19) = Ok None
  /\ (forall e, lookupVerses BhagavadGita (Int 19) <> Throw e)
  /\ getNextSequentialVerse (mkVerse BhagavadGita (Int 19) (Int 1))
     = mkVerse SrimadBhagavatam (Int 1) (Int 1).
Proof.
  split; [reflexivity|]. split; [intros e H; discriminate H | reflexivity].
Qed.

(** C10 — on a chapter above the chapter count of its source the sequencer
    does not signal anything: whatever the verse is, it returns chapter 1,
    verse 1 of the other scripture. *)
Theorem out_of_range_chapter_wraps (s : Source) (c : Z) (v : number) :
  chapterCount s < c ->
  getNextSequentialVerse (mkVerse s (Int c) v)
  = mkVerse (otherSource s) (Int 1) (Int 1).
Proof.
  intro H.
  assert (U : versesInChapter s (Int c) = None).
  { pose proof (proj2 (lookup_never_fails_aux s c)) as L.
    destruct (versesInChapter s (Int c)); [lia | reflexivity]. }
  assert (E : js_lt v None = false) by (destruct v; reflexivity).
  unfold getNextSequentialVerse, versesInChapter in *.
  cbn [source chapter verse js_succ otherSource].
  destruct s; cbn [chapterCount] in H; rewrite U, E; unfold js_lt.
  - destruct (Z.ltb_spec c 18); [lia | reflexivity].
  - destruct (Z.ltb_spec c 19); [lia | reflexivity].
Qed.

Lemma out_of_range_chapter_wraps_witness :
  chapterCount BhagavadGita < 19
  /\ getNextSequentialVerse (mkVerse BhagavadGita (Int 19) NaN)
     = mkVerse SrimadBhagavatam (Int 1) (Int 1).
Proof.
  split; [reflexivity|].
  apply (out_of_range_chapter_wraps BhagavadGita 19 NaN). reflexivity.
Defined.

(** * Properties of the recency filter and of the selector *)

(** One evaluation of the filter: one load of the posts, then, if the load
    returned, one reading of the clock. *)
Lemma hasVerseBeenPublishedRecently_eq (v : VerseReference) (days : Z)
                                       (w : World) (t : Reads) :
  hasVerseBeenPublishedRecently v days w t
  = match allPosts w (postLoads t) with
    | Ok history =>
        Some (Ok (existsb (isRecentUse v (subDays (clock w (clockReads t)) days))
                          history),
              mkReads (lastReads t) (S (postLoads t)) (S (clockReads t)))
    | Throw e =>
        Some (Throw e, mkReads (lastReads t) (S (postLoads t)) (clockReads t))
    end.
Proof.
  unfold hasVerseBeenPublishedRecently, bind, getAllPosts, newDate, ret.
  destruct (allPosts w (postLoads t)); reflexivity.
Qed.

Lemma recencyLoop_S (fuel : nat) (v : VerseReference) (a : Z)
                    (w : World) (t : Reads) :
  recencyLoop (S fuel) v a w t
  = match hasVerseBeenPublishedRecently v 365 w t with
    | Some (Ok true, t') =>
        if a + 1 >=? maxAttempts then Some (Throw exhausted, t')
        else recencyLoop fuel (getNextSequentialVerse v) (a + 1) w t'
    | Some (Ok false, t') => Some (Ok v, t')
    | Some (Throw e, t') => Some (Throw e, t')
    | None => None
    end.
Proof.
  cbn [recencyLoop]. unfold bind.
  destruct (hasVerseBeenPublishedRecently v 365 w t) as [[[[|]|e] t']|];
    try reflexivity.
  destruct (a + 1 >=? maxAttempts); reflexivity.
Qed.

Lemma getNextVerse_eq (w : World) :
  run getNextVerse w
  = match lastVerse w with
    | Ok None => Some (Ok firstVerse, mkReads 1 0 0)
    | Ok (Some last) =>
        recencyLoop (Z.to_nat maxAttempts) (getNextSequentialVerse last) 0
                    w (mkReads 1 0 0)
    | Throw e => Some (Throw e, mkReads 1 0 0)
    end.
Proof.
  unfold run, getNextVerse, bind, getLastPublishedVerse, noReads.
  cbn [lastReads postLoads clockReads].
  destruct (lastVerse w) as [[last|]|e]; reflexivity.
Qed.

(** What [firstAccepted] finds. *)
Lemma firstAccepted_Some (h : list Post) (times : nat -> Z) (n : nat) :
  forall (c : nat) (v : VerseReference) (k : nat),
    firstAccepted h times c v n = Some k <->
    (k < n)%nat
    /\ recentIn h (times (c + k)%nat) (iter k getNextSequentialVerse v) = false
    /\ (forall i, (i < k)%nat ->
          recentIn h (times (c + i)%nat) (iter i getNextSequentialVerse v) = true).
Proof.
  induction n as [|n IH]; intros c v k; cbn [firstAccepted].
  - split; [discriminate | intros [L _]; lia].
  - destruct (recentIn h (times c) v) eqn:R.
    + destruct k as [|k].
      * split.
        -- destruct (firstAccepted h times (S c) (getNextSequentialVerse v) n);
             discriminate.
        -- intros [_ [F _]]. cbn [iter] in F. rewrite Nat.add_0_r in F.
           congruence.
      * specialize (IH (S c) (getNextSequentialVerse v) k). split.
        -- intro E.
           destruct (firstAccepted h times (S c) (getNextSequentialVerse v) n)
             as [j|]; [|discriminate].
           injection E as ->.
           destruct (proj1 IH eq_refl) as [L [F B]].
           split; [lia|]. split.
           ++ rewrite Nat.add_succ_r. exact F.
           ++ intros [|i] Hi.
              ** rewrite Nat.add_0_r. exact R.
              ** rewrite Nat.add_succ_r. apply B. lia.
        -- intros [L [F B]].
           assert (E : firstAccepted h times (S c) (getNextSequentialVerse v) n
                       = Some k).
           { apply IH. split; [lia|]. split.
             - rewrite Nat.add_succ_r in F. exact F.
             - intros i Hi. specialize (B (S i) ltac:(lia)).
               rewrite Nat.add_succ_r in B. exact B. }
           rewrite E. reflexivity.
    + split.
      * intro E. injection E as <-. split; [lia|]. split.
        -- rewrite Nat.add_0_r. exact R.
        -- intros i Hi. lia.
      * intros [_ [F B]]. destruct k as [|k]; [reflexivity|].
        specialize (B O ltac:(lia)). cbn [iter] in B.
        rewrite Nat.add_0_r in B. congruence.
Qed.

Lemma firstAccepted_None (h : list Post) (times : nat -> Z) (n : nat) :
  forall (c : nat) (v : VerseReference),
    firstAccepted h times c v n = None <->
    (forall i, (i < n)%nat ->
       recentIn h (times (c + i)%nat) (iter i getNextSequentialVerse v) = true).
Proof.
  induction n as [|n IH]; intros c v; cbn [firstAccepted].
  - split; [intros _ i Hi; lia | reflexivity].
  - destruct (recentIn h (times c) v) eqn:R.
    + specialize (IH (S c) (getNextSequentialVerse v)). split.
      * intros E [|i] Hi; [rewrite Nat.add_0_r; exact R|].
        destruct (firstAccepted h times (S c) (getNextSequentialVerse v) n);
          [discriminate|].
        rewrite Nat.add_succ_r. apply (proj1 IH eq_refl). lia.
      * intro B.
        assert (E : firstAccepted h times (S c) (getNextSequentialVerse v) n
                    = None).
        { apply IH. intros i Hi. specialize (B (S i) ltac:(lia)).
          rewrite Nat.add_succ_r in B. exact B. }
        rewrite E. reflexivity.
    + split; [discriminate|].
      intro B. specialize (B O ltac:(lia)). cbn [iter] in B.
      rewrite Nat.add_0_r in B. congruence.
Qed.

(** The loop when every load returns the same history: it returns the
    first candidate that the filter accepts, after one evaluation of the
    filter per candidate, or throws once [maxAttempts] candidates have been
    rejected. *)
Lemma recencyLoop_sameHistory (w : World) (h : list Post) :
  SameHistory w h ->
  forall (fuel : nat) (v : VerseReference) (a : Z) (t : Reads),
    (0 < fuel)%nat -> a + Z.of_nat fuel = maxAttempts ->
    recencyLoop fuel v a w t
    = Some match firstAccepted h (clock w) (clockReads t) v fuel with
           | Some k => (Ok (iter k getNextSequentialVerse v), addChecks (S k) t)
           | None => (Throw exhausted, addChecks fuel t)
           end.
Proof.
  intros HP. induction fuel as [|fuel IH]; intros v a t Hf Ha; [lia|].
  rewrite recencyLoop_S, hasVerseBeenPublishedRecently_eq, HP.
  fold (recentIn h (clock w (clockReads t)) v). cbn [firstAccepted].
  destruct (recentIn h (clock w (clockReads t)) v) eqn:R.
  - destruct (Z.geb_spec (a + 1) maxAttempts) as [G | G].
    + assert (fuel = O) by lia. subst fuel. cbn [firstAccepted option_map].
      unfold addChecks. do 2 f_equal. rewrite !Nat.add_1_r. reflexivity.
    + rewrite IH by lia. cbn [clockReads].
      destruct (firstAccepted h (clock w) (S (clockReads t))
                              (getNextSequentialVerse v) fuel) as [k|];
        cbn [option_map iter]; unfold addChecks;
        cbn [lastReads postLoads clockReads]; do 3 f_equal; lia.
  - cbn [iter]. unfold addChecks. rewrite !Nat.add_1_r. reflexivity.
Qed.

Lemma getNextVerse_sameHistory (w : World) (h : list Post)
                               (last : VerseReference) :
  lastVerse w = Ok (Some last) -> SameHistory w h ->
  run getNextVerse w
  = Some match firstAccepted h (clock w) 0 (getNextSequentialVerse last)
                             (Z.to_nat maxAttempts) with
         | Some k => (Ok (candidate last k), mkReads 1 (S k) (S k))
         | None => (Throw exhausted,
                    mkReads 1 (Z.to_nat maxAttempts) (Z.to_nat maxAttempts))
         end.
Proof.
  intros HL HS. rewrite getNextVerse_eq, HL.
  rewrite (recencyLoop_sameHistory w h HS) by (unfold maxAttempts; lia).
  cbn [clockReads].
  destruct (firstAccepted h (clock w) 0 (getNextSequentialVerse last)
                          (Z.to_nat maxAttempts)); reflexivity.
Qed.

Lemma stableWorld_sameHistory (last : option VerseReference) (h : list Post)
                              (now : Z) :
  SameHistory (stableWorld last h now) h.
Proof. intro k. reflexivity. Qed.

(** The loop in any world, whatever the collaborator does: enough fuel is
    given, reads of the last post are not repeated, the posts are loaded
    once per evaluation of the filter, a load that throws ends the loop with
    that error, and the candidates stay in the canon. *)
Lemma recencyLoop_any (w : World) :
  forall (fuel : nat) (v : VerseReference) (a : Z) (t : Reads),
    (0 < fuel)%nat -> a + Z.of_nat fuel = maxAttempts ->
    exists r t',
      recencyLoop fuel v a w t = Some (r, t')
      /\ lastReads t' = lastReads t
      /\ (postLoads t < postLoads t' <= postLoads t + fuel)%nat
      /\ (forall j e, (postLoads t <= j < postLoads t')%nat ->
                      allPosts w j = Throw e ->
                      r = Throw e /\ postLoads t' = S j)
      /\ (valid v -> forall x, r = Ok x -> valid x).
Proof.
  induction fuel as [|fuel IH]; intros v a t Hf Ha; [lia|].
  rewrite recencyLoop_S, hasVerseBeenPublishedRecently_eq.
  destruct (allPosts w (postLoads t)) as [h | e0] eqn:EP.
  - destruct (existsb _ h) eqn:R.
    + destruct (Z.geb_spec (a + 1) maxAttempts) as [G | G].
      * eexists _, _. split; [reflexivity|]. cbn [lastReads postLoads].
        split; [reflexivity|]. split; [lia|]. split.
        -- intros j e Hj Ej. assert (j = postLoads t) by lia. subst j.
           congruence.
        -- intros _ x Hx. discriminate Hx.
      * destruct (IH (getNextSequentialVerse v) (a + 1)
                     (mkReads (lastReads t) (S (postLoads t)) (S (clockReads t))))
          as [r [t' [E [HL [HB [HE HV]]]]]]; [lia | lia |].
        cbn [lastReads postLoads] in HL, HB, HE.
        exists r, t'. split; [exact E|]. split; [exact HL|].
        split; [lia|]. split.
        -- intros j e Hj Ej.
           destruct (Nat.eq_dec j (postLoads t)) as [-> | NE];
             [congruence | apply HE; [lia | exact Ej]].
        -- intros Hv. apply HV. apply next_valid. exact Hv.
    + eexists _, _. split; [reflexivity|]. cbn [lastReads postLoads].
      split; [reflexivity|]. split; [lia|]. split.
      * intros j e Hj Ej. assert (j = postLoads t) by lia. subst j.
        congruence.
      * intros Hv x Hx. injection Hx as <-. exact Hv.
  - eexists _, _. split; [reflexivity|]. cbn [lastReads postLoads].
    split; [reflexivity|]. split; [lia|]. split.
    + intros j e Hj Ej. assert (j = postLoads t) by lia. subst j.
      split; [congruence | reflexivity].
    + intros _ x Hx. discriminate Hx.
Qed.

(** The same for a whole invocation. *)
Lemma getNextVerse_any (w : World) :
  exists r reads,
    run getNextVerse w = Some (r, reads)
    /\ lastReads reads = 1%nat
    /\ (postLoads reads <= Z.to_nat maxAttempts)%nat
    /\ (forall j e, (j < postLoads reads)%nat ->
                    allPosts w j = Throw e ->
                    r = Throw e /\ postLoads reads = S j)
    /\ ((lastVerse w = Ok None
         \/ exists last, lastVerse w = Ok (Some last) /\ valid last) ->
        forall x, r = Ok x -> valid x).
Proof.
  rewrite getNextVerse_eq.
  destruct (lastVerse w) as [[last|]|e0] eqn:EL.
  - destruct (recencyLoop_any w (Z.to_nat maxAttempts)
                (getNextSequentialVerse last) 0 (mkReads 1 0 0))
      as [r [t' [E [HL [HB [HE HV]]]]]];
      [unfold maxAttempts; lia | unfold maxAttempts; lia |].
    cbn [lastReads postLoads] in HL, HB, HE.
    exists r, t'. split; [exact E|]. split; [exact HL|]. split; [lia|].
    split.
    + intros j e Hj Ej. apply HE; [lia | exact Ej].
    + intros [HN | [l [Hl Vl]]]; [discriminate HN|].
      injection Hl as <-. apply HV. apply next_valid. exact Vl.
  - eexists _, _. split; [reflexivity|]. cbn [lastReads postLoads].
    split; [reflexivity|]. split; [lia|]. split.
    + intros j e Hj. lia.
    + intros _ x Hx. injection Hx as <-. reflexivity.
  - eexists _, _. split; [reflexivity|]. cbn [lastReads postLoads].
    split; [reflexivity|]. split; [lia|]. split.
    + intros j e Hj. lia.
    + intros _ x Hx. discriminate Hx.
Qed.

(** Every invocation settles: the fuel given to the loop is never used
    up. *)
Lemma getNextVerse_total (w : World) :
  exists r reads, run getNextVerse w = Some (r, reads).
Proof.
  destruct (getNextVerse_any w) as [r [reads [E _]]].
  exists r, reads. exact E.
Qed.

(** C1, as the code has it — when there is no last post, [getNextVerse]
    returns Bhagavad Gita 1.1 without loading the posts or reading the
    clock; and for every valid last post and every history, if the earliest
    successor of the last post that the filter does not reject is one of
    the first 1000 successors, [getNextVerse] returns it.  (The filter reads
    the clock anew for each candidate: candidate [i] is judged at the
    instant [clock w i].) *)
Theorem getNextVerse_earliest_successor (w : World) :
  (lastVerse w = Ok None ->
   run getNextVerse w = Some (Ok firstVerse, mkReads 1 0 0))
  /\ (forall (h : list Post) (last : VerseReference) (k : nat),
        valid last -> lastVerse w = Ok (Some last) -> SameHistory w h ->
        (k < 1000)%nat ->
        (forall i, (i < k)%nat ->
                   recentIn h (clock w i) (candidate last i) = true) ->
        recentIn h (clock w k) (candidate last k) = false ->
        run getNextVerse w = Some (Ok (candidate last k), mkReads 1 (S k) (S k))).
Proof.
  split.
  - intro HL. rewrite getNextVerse_eq, HL. reflexivity.
  - intros h last k _ HL HS Hk HB HF.
    rewrite (getNextVerse_sameHistory w h last HL HS).
    assert (E : firstAccepted h (clock w) 0 (getNextSequentialVerse last)
                              (Z.to_nat maxAttempts) = Some k).
    { apply firstAccepted_Some. split; [unfold maxAttempts; lia|].
      split; [exact HF | exact HB]. }
    rewrite E. reflexivity.
Qed.

Lemma getNextVerse_earliest_successor_witness :
  run getNextVerse (stableWorld None [] sampleNow)
  = Some (Ok firstVerse, mkReads 1 0 0)
  /\ run getNextVerse oneBlockWorld = Some (Ok gita_2_15, mkReads 1 2 2).
Proof.
  split.
  - apply (proj1 (getNextVerse_earliest_successor
                    (stableWorld None [] sampleNow))).
    reflexivity.
  - apply (proj2 (getNextVerse_earliest_successor oneBlockWorld)
                 [mkPost BhagavadGita "2.14" (subDays sampleNow 100)]
                 gita_2_13 1%nat).
    + reflexivity.
    + reflexivity.
    + apply stableWorld_sameHistory.
    + lia.
    + intros i Hi. destruct i as [|i]; [reflexivity | lia].
    + reflexivity.
Defined.

(** C1, as the claim states it, fails: after Bhagavad Gita 1.1, with its
    next 1000 successors posted yesterday, the earliest successor not used
    in the window is the 1001st, a valid reference, and [getNextVerse]
    throws instead of returning it. *)
Lemma earliest_successor_beyond_bound_not_returned :
  valid firstVerse
  /\ firstAccepted (postsAfter firstVerse 1000) (fun _ => sampleNow) 0
                   (getNextSequentialVerse firstVerse) totalVerses
     = Some 1000%nat
  /\ valid (candidate firstVerse 1000)
  /\ run getNextVerse crowdedWorld
     = Some (Throw exhausted, mkReads 1 1000 1000).
Proof.
  split; [reflexivity|]. split; [vm_compute; reflexivity|].
  split; vm_compute; reflexivity.
Qed.

(** C7, as the code has it — with a last post and a history,
    [getNextVerse] throws the exhaustion error exactly when the first 1000
    successive candidates are all rejected (the attempt counter reaches
    1000), and otherwise returns the first candidate that is accepted. *)
Theorem exhaustion_at_1000_rejections
        (w : World) (h : list Post) (last : VerseReference) :
  lastVerse w = Ok (Some last) -> SameHistory w h ->
  ((exists reads, run getNextVerse w = Some (Throw exhausted, reads))
   <-> (forall i, (i < 1000)%nat ->
                  recentIn h (clock w i) (candidate last i) = true))
  /\ (forall k, (k < 1000)%nat ->
                (forall i, (i < k)%nat ->
                           recentIn h (clock w i) (candidate last i) = true) ->
                recentIn h (clock w k) (candidate last k) = false ->
                run getNextVerse w
                = Some (Ok (candidate last k), mkReads 1 (S k) (S k))).
Proof.
  intros HL HS. rewrite (getNextVerse_sameHistory w h last HL HS).
  change (Z.to_nat maxAttempts) with 1000%nat.
  split; [split|].
  - intros [reads E].
    destruct (firstAccepted h (clock w) 0 (getNextSequentialVerse last) 1000)
      as [k|] eqn:F; [discriminate E|].
    exact (proj1 (firstAccepted_None h (clock w) 1000 0 _) F).
  - intro B.
    rewrite (proj2 (firstAccepted_None h (clock w) 1000 0 _) B).
    eexists. reflexivity.
  - intros k Hk HB HF.
    assert (E : firstAccepted h (clock w) 0 (getNextSequentialVerse last) 1000
                = Some k).
    { apply firstAccepted_Some. split; [lia|]. split; [exact HF | exact HB]. }
    rewrite E. reflexivity.
Qed.

Lemma exhaustion_at_1000_rejections_witness :
  lastVerse oneBlockWorld = Ok (Some gita_2_13)
  /\ ((exists reads, run getNextVerse oneBlockWorld = Some (Throw exhausted, reads))
      <-> (forall i, (i < 1000)%nat ->
             recentIn [mkPost BhagavadGita "2.14" (subDays sampleNow 100)]
                      sampleNow (candidate gita_2_13 i) = true))
  /\ run getNextVerse oneBlockWorld = Some (Ok gita_2_15, mkReads 1 2 2).
Proof.
  pose proof (exhaustion_at_1000_rejections oneBlockWorld
                [mkPost BhagavadGita "2.14" (subDays sampleNow 100)]
                gita_2_13 eq_refl
                (stableWorld_sameHistory _ _ _)) as [H1 H2].
  split; [reflexivity|]. split; [exact H1|].
  apply (H2 1%nat).
  - lia.
  - intros i Hi. destruct i as [|i]; [reflexivity | lia].
  - reflexivity.
Defined.

(** C7, as the claim states it, fails: after the last verse of the canon,
    with exactly its next 1000 successors posted yesterday, the 1001st
    candidate is not rejected, so no more than 1000 successive candidates
    are rejected, and yet [getNextVerse] throws the exhaustion error. *)
Lemma exhaustion_with_exactly_1000_rejections :
  (forall i, (i < 1000)%nat ->
     recentIn (postsAfter lastOfCanon 1000) sampleNow (candidate lastOfCanon i)
     = true)
  /\ recentIn (postsAfter lastOfCanon 1000) sampleNow (candidate lastOfCanon 1000)
     = false
  /\ run getNextVerse thousandBlockedWorld
     = Some (Throw exhausted, mkReads 1 1000 1000).
Proof.
  assert (F : firstAccepted (postsAfter lastOfCanon 1000) (fun _ => sampleNow) 0
                            (getNextSequentialVerse lastOfCanon) 1001
              = Some 1000%nat) by (vm_compute; reflexivity).
  apply firstAccepted_Some in F. destruct F as [_ [F B]].
  split; [exact B|]. split; [exact F|]. vm_compute. reflexivity.
Qed.

(** C4, as the code has it — every invocation reads the last post once
    and loads the posts at most 1000 times: not at all when there is no
    last post, and otherwise once for every candidate that the filter
    examines, that is [k + 1] times when [k] candidates are rejected before
    one is accepted. *)
Theorem reads_per_invocation (w : World) :
  (exists r reads,
     run getNextVerse w = Some (r, reads)
     /\ lastReads reads = 1%nat /\ (postLoads reads <= 1000)%nat)
  /\ (lastVerse w = Ok None ->
      exists r reads,
        run getNextVerse w = Some (r, reads)
        /\ lastReads reads = 1%nat /\ postLoads reads = 0%nat)
  /\ (forall (h : list Post) (last : VerseReference) (k : nat),
        lastVerse w = Ok (Some last) -> SameHistory w h ->
        (k < 1000)%nat ->
        (forall i, (i < k)%nat ->
                   recentIn h (clock w i) (candidate last i) = true) ->
        recentIn h (clock w k) (candidate last k) = false ->
        exists r reads,
          run getNextVerse w = Some (r, reads)
          /\ lastReads reads = 1%nat /\ postLoads reads = S k).
Proof.
  split; [|split].
  - destruct (getNextVerse_any w) as [r [reads [E [HL [HB _]]]]].
    exists r, reads. split; [exact E|]. split; [exact HL | exact HB].
  - intro HL. rewrite getNextVerse_eq, HL.
    eexists _, _. split; [reflexivity|]. split; reflexivity.
  - intros h last k HL HS Hk HB HF.
    rewrite (getNextVerse_sameHistory w h last HL HS).
    assert (E : firstAccepted h (clock w) 0 (getNextSequentialVerse last)
                              (Z.to_nat maxAttempts) = Some k).
    { apply firstAccepted_Some. split; [unfold maxAttempts; lia|].
      split; [exact HF | exact HB]. }
    rewrite E. eexists _, _. split; [reflexivity|]. split; reflexivity.
Qed.

Lemma reads_per_invocation_witness :
  (exists r reads,
     run getNextVerse (stableWorld None [] sampleNow) = Some (r, reads)
     /\ lastReads reads = 1%nat /\ postLoads reads = 0%nat)
  /\ (exists r reads,
        run getNextVerse oneBlockWorld = Some (r, reads)
        /\ lastReads reads = 1%nat /\ postLoads reads = 2%nat).
Proof.
  split.
  - apply (proj1 (proj2 (reads_per_invocation
                           (stableWorld None [] sampleNow)))).
    reflexivity.
  - apply (proj2 (proj2 (reads_per_invocation oneBlockWorld))
                 [mkPost BhagavadGita "2.14" (subDays sampleNow 100)]
                 gita_2_13 1%nat).
    + reflexivity.
    + apply stableWorld_sameHistory.
    + lia.
    + intros i Hi. destruct i as [|i]; [reflexivity | lia].
    + reflexivity.
Defined.

(** C4, as the claim states it, fails: when the last post is Bhagavad Gita
    2.13 and 2.14 was posted 100 days ago, one candidate is rejected and the
    invocation reads the collaborator three times, once for the last post
    and twice for the posts. *)
Lemma three_reads_for_one_rejection :
  run getNextVerse oneBlockWorld = Some (Ok gita_2_15, mkReads 1 2 2)
  /\ (2 < lastReads (mkReads 1 2 2) + postLoads (mkReads 1 2 2))%nat.
Proof. split; [vm_compute; reflexivity | cbn; lia]. Qed.

(** C6 — an error thrown by the reading of the last post, or by a load of
    the posts, is what [getNextVerse] throws: after a failed reading of the
    last post nothing more is read, and a failed load is the last load of
    the invocation.  This holds for any collaborator, and so for the readers
    of the Supabase module, whatever the client does. *)
Theorem history_errors_propagate (w : World) (e : error) :
  (lastVerse w = Throw e ->
   run getNextVerse w = Some (Throw e, mkReads 1 0 0))
  /\ (forall (j : nat) (r : result VerseReference) (reads : Reads),
        run getNextVerse w = Some (r, reads) ->
        (j < postLoads reads)%nat ->
        allPosts w j = Throw e ->
        r = Throw e /\ lastReads reads = 1%nat /\ postLoads reads = S j)
  /\ (forall (Number : string -> number)
             (lastQuery : Supabase.Query Supabase.VerseColumns)
             (postQueries : nat -> Supabase.Query (list Supabase.PostRow))
             (times : nat -> Z),
        Supabase.getLastPublishedVerse Number lastQuery = Throw e ->
        run getNextVerse (Supabase.world Number lastQuery postQueries times)
        = Some (Throw e, mkReads 1 0 0)).
Proof.
  split; [|split].
  - intro HL. rewrite getNextVerse_eq, HL. reflexivity.
  - intros j r reads E Hj Ej.
    destruct (getNextVerse_any w) as [r' [reads' [E' [HL [_ [HE _]]]]]].
    rewrite E in E'. injection E' as <- <-.
    destruct (HE j e Hj Ej) as [Hr Hp].
    split; [exact Hr|]. split; [exact HL | exact Hp].
  - intros Number lastQuery postQueries times HL.
    rewrite getNextVerse_eq. unfold Supabase.world. cbn [lastVerse].
    rewrite HL. reflexivity.
Qed.

Lemma history_errors_propagate_witness :
  run getNextVerse failingLastWorld
  = Some (Throw (Error "Failed to get last published verse: timeout"),
          mkReads 1 0 0)
  /\ run getNextVerse
         (Supabase.world readDecimal
            (Supabase.Rejects (Error "Missing Supabase environment variables."))
            (fun _ => Supabase.Resolves (Some []) None)
            (fun _ => sampleNow))
     = Some (Throw (Error "Missing Supabase environment variables."),
             mkReads 1 0 0)
  /\ allPosts failingLoadWorld 1 = Throw timeoutError
  /\ run getNextVerse failingLoadWorld = Some (Throw timeoutError, mkReads 1 2 1)
  /\ lastReads (mkReads 1 2 1) = 1%nat
  /\ postLoads (mkReads 1 2 1) = 2%nat.
Proof.
  pose proof (history_errors_propagate failingLoadWorld timeoutError)
    as [_ [H2 _]].
  pose proof (history_errors_propagate failingLastWorld
                (Error "Failed to get last published verse: timeout"))
    as [H1 _].
  pose proof (history_errors_propagate failingLastWorld
                (Error "Missing Supabase environment variables."))
    as [_ [_ H3]].
  split; [apply H1; reflexivity|].
  split; [apply H3; reflexivity|].
  assert (E : run getNextVerse failingLoadWorld
              = Some (Throw timeoutError, mkReads 1 2 1)) by reflexivity.
  split; [reflexivity|]. split; [exact E|].
  apply (H2 1%nat (Throw timeoutError) (mkReads 1 2 1) E).
  - cbn. lia.
  - reflexivity.
Defined.

(** Inside the Supabase module, by contrast, a failed fetch while reading
    the last post is not thrown to the selector: the reader answers that
    there is no last post. *)
Lemma getLastPublishedVerse_fetch_failed (Number : string -> number) :
  Supabase.getLastPublishedVerse Number
    (Supabase.Rejects (TypeError "fetch failed"))
  = Ok None.
Proof. reflexivity. Qed.

(** C9 — if the last post is absent or valid, whatever the history, the
    clock and the failures of the collaborator, a reference returned by
    [getNextVerse] is a reference of the canon: its chapter is between 1
    and the chapter count of its source and its verse between 1 and the
    verse count of that chapter. *)
Theorem selection_stays_in_canon
        (w : World) (r : VerseReference) (reads : Reads) :
  (lastVerse w = Ok None
   \/ exists last, lastVerse w = Ok (Some last) /\ valid last) ->
  run getNextVerse w = Some (Ok r, reads) ->
  (source r = BhagavadGita \/ source r = SrimadBhagavatam)
  /\ exists c v n,
       chapter r = Int c /\ verse r = Int v
       /\ 1 <= c <= chapterCount (source r)
       /\ versesInChapter (source r) (Int c) = Some n
       /\ 1 <= v <= n.
Proof.
  intros HL E.
  destruct (getNextVerse_any w) as [r' [reads' [E' [_ [_ [_ HV]]]]]].
  rewrite E in E'. injection E' as <- <-.
  split; [destruct (source r); auto|].
  apply valid_fields. apply (HV HL r). reflexivity.
Qed.

Lemma selection_stays_in_canon_witness :
  (source gita_2_15 = BhagavadGita \/ source gita_2_15 = SrimadBhagavatam)
  /\ exists c v n,
       chapter gita_2_15 = Int c /\ verse gita_2_15 = Int v
       /\ 1 <= c <= chapterCount (source gita_2_15)
       /\ versesInChapter (source gita_2_15) (Int c) = Some n
       /\ 1 <= v <= n.
Proof.
  apply (selection_stays_in_canon oneBlockWorld gita_2_15 (mkReads 1 2 2)).
  - right. exists gita_2_13. split; reflexivity.
  - reflexivity.
Defined.





(** On the text that the publishing route stores for a reference of the
    canon, the chapter and the verse read back by the rule of the
    specification are those of the reference. *)
Lemma spec_parseReference_verseString (v : VerseReference) :
  valid v -> spec_parseReference (verseString v) = (chapter v, verse v).
Proof.
  intro H. apply valid_In_allRefs in H. rewrite <- canon_allRefs in H.
  assert (C : forallb (fun v =>
                match spec_parseReference (verseString v) with
                | (c, n) => number_eqb c (chapter v) && number_eqb n (verse v)
                end) canon = true) by (vm_compute; reflexivity).
  rewrite forallb_forall in C. specialize (C v H).
  destruct (spec_parseReference (verseString v)) as [c n].
  apply andb_true_iff in C. destruct C as [C1 C2].
  apply number_eqb_eq in C1, C2. congruence.
Qed.

(** C3 — the filter compares the stored text with ["chapter.verse"] as a
    string and does not parse it.  A recent record of the Srimad
    Bhagavatam stored as ["1.2.3"] is a recent use of chapter 1, verse 3 by
    the rule of the specification (first number the chapter, last number
    the verse), and the filter does not count it. *)
Theorem three_part_reference_not_counted :
  spec_parseReference (verseReference threePartPost) = (Int 1, Int 3)
  /\ spec_isRecentUse bhagavatam_1_3 (subDays sampleNow 365) threePartPost = true
  /\ isRecentUse bhagavatam_1_3 (subDays sampleNow 365) threePartPost = false
  /\ run (hasVerseBeenPublishedRecently bhagavatam_1_3 365)
         (stableWorld None [threePartPost] sampleNow)
     = Some (Ok false, mkReads 0 1 1).
Proof. repeat split; vm_compute; reflexivity. Qed.

(** * Further properties of the sequencer *)

(** X1 — any valid reference is reached from any other in fewer than 1545
    steps. *)
Theorem every_reference_reachable (r r' : VerseReference) :
  valid r -> valid r' ->
  exists k, (k < totalVerses)%nat /\ iter k getNextSequentialVerse r = r'.
Proof.
  intros H H'.
  destruct (valid_on_walk r H) as [a [Ha ->]].
  destruct (valid_on_walk r' H') as [b [Hb ->]].
  destruct (Nat.le_gt_cases a b) as [L | L].
  - exists (b - a)%nat. split; [lia|].
    rewrite <- iter_add. f_equal. lia.
  - exists (totalVerses - a + b)%nat. split; [lia|].
    rewrite <- iter_add.
    replace (a + (totalVerses - a + b))%nat with (totalVerses + b)%nat by lia.
    rewrite iter_add, canon_closed. reflexivity.
Qed.

Lemma every_reference_reachable_witness :
  exists k, (k < totalVerses)%nat
            /\ iter k getNextSequentialVerse lastOfCanon = gita_2_13.
Proof.
  apply (every_reference_reachable lastOfCanon gita_2_13); reflexivity.
Defined.










(** * Reference texts: printing, splitting and reading back *)

Lemma lacks_append (c : ascii) (a b : string) :
  lacks c (a ++ b) = lacks c a && lacks c b.
Proof.
  induction a as [|x a IH]; cbn [append lacks]; [reflexivity|].
  rewrite IH, andb_assoc. reflexivity.
Qed.

Lemma split_whole (sep : ascii) (s : string) :
  lacks sep s = true -> split sep s = [s].
Proof.
  induction s as [|x s IH]; cbn [lacks split]; [reflexivity|].
  intro H. apply andb_true_iff in H. destruct H as [Hx Hs].
  apply negb_true_iff in Hx. rewrite Hx, (IH Hs). reflexivity.
Qed.

Lemma split_append (sep : ascii) (a b : string) :
  lacks sep a = true ->
  split sep (a ++ String sep b) = a :: split sep b.
Proof.
  induction a as [|x a IH]; cbn [lacks append split].
  - intros _. rewrite Ascii.eqb_refl. reflexivity.
  - intro H. apply andb_true_iff in H. destruct H as [Hx Ha].
    apply negb_true_iff in Hx. rewrite Hx, (IH Ha). reflexivity.
Qed.

(** Splitting at the separator undoes joining, for parts that do not
    contain the separator. *)
Lemma split_join (sep : ascii) (parts : list string) :
  parts <> [] -> Forall (fun part => lacks sep part = true) parts ->
  split sep (join (String sep EmptyString) parts) = parts.
Proof.
  induction parts as [|part rest IH]; intros NE HF; [congruence|].
  inversion HF as [|? ? Hp Hr]; subst.
  destruct rest as [|part' rest'].
  - cbn [join]. apply split_whole. exact Hp.
  - change (join (String sep EmptyString) (part :: part' :: rest'))
      with (part ++ String sep (join (String sep EmptyString) (part' :: rest')))%string.
    rewrite (split_append sep part _ Hp), IH; [reflexivity | discriminate | exact Hr].
Qed.

Lemma string_of_uint_lacks_dot (d : Decimal.uint) :
  lacks "." (NilEmpty.string_of_uint d) = true.
Proof. induction d; cbn [NilEmpty.string_of_uint lacks]; auto. Qed.

Lemma NilZero_string_of_uint_lacks_dot (d : Decimal.uint) :
  lacks "." (NilZero.string_of_uint d) = true.
Proof.
  destruct d; [reflexivity | ..]; exact (string_of_uint_lacks_dot _).
Qed.

Lemma number_to_string_lacks_dot (a : number) :
  lacks "." (number_to_string a) = true.
Proof.
  destruct a as [z|]; [|reflexivity]. unfold number_to_string.
  destruct (Z.to_int z) as [d | d]; cbn [NilZero.string_of_int lacks].
  - apply NilZero_string_of_uint_lacks_dot.
  - apply NilZero_string_of_uint_lacks_dot.
Qed.

Lemma to_int_proper (z : Z) :
  Z.to_int z <> Decimal.Pos Decimal.Nil /\ Z.to_int z <> Decimal.Neg Decimal.Nil.
Proof.
  destruct z as [|p|p]; cbn [Z.to_int]; split; try discriminate;
    intro H; injection H as H; exact (DecimalPos.Unsigned.to_uint_nonnil p H).
Qed.

Lemma int_of_number_to_string (z : Z) :
  NilZero.int_of_string (number_to_string (Int z)) = Some (Z.to_int z).
Proof.
  destruct (to_int_proper z) as [H1 H2]. apply NilZero.isi; assumption.
Qed.

(** Printing a number loses nothing. *)
Lemma number_to_string_inj (a b : number) :
  number_to_string a = number_to_string b -> a = b.
Proof.
  destruct a as [x|], b as [y|]; intro H.
  - pose proof (int_of_number_to_string x) as Hx.
    rewrite H, int_of_number_to_string in Hx. injection Hx as Hx.
    f_equal. apply DecimalZ.to_int_inj. symmetry. exact Hx.
  - pose proof (int_of_number_to_string x) as Hx.
    rewrite H in Hx. discriminate Hx.
  - pose proof (int_of_number_to_string y) as Hy.
    rewrite <- H in Hy. discriminate Hy.
  - reflexivity.
Qed.

Lemma dotted_inj (a a' b b' : string) :
  lacks "." a = true -> lacks "." a' = true ->
  (a ++ String "." b)%string = (a' ++ String "." b')%string ->
  a = a' /\ b = b'.
Proof.
  revert a'. induction a as [|x a IH]; intros [|x' a'] Ha Ha' E;
    cbn [append lacks] in *.
  - injection E as E. split; [reflexivity | exact E].
  - injection E as Ex E. subst x'. discriminate Ha'.
  - injection E as Ex E. subst x. discriminate Ha.
  - injection E as Ex E. subst x'.
    apply andb_true_iff in Ha, Ha'.
    destruct (IH a' (proj2 Ha) (proj2 Ha') E) as [-> ->].
    split; reflexivity.
Qed.

(** Two references stored under the same text have the same chapter and
    the same verse. *)
Lemma savedVerseReference_inj (v v' : VerseReference) :
  savedVerseReference v = savedVerseReference v' ->
  chapter v = chapter v' /\ verse v = verse v'.
Proof.
  unfold savedVerseReference. intro E.
  destruct (dotted_inj _ _ _ _ (number_to_string_lacks_dot (chapter v))
                       (number_to_string_lacks_dot (chapter v')) E)
    as [Ec Ev].
  split; apply number_to_string_inj; assumption.
Qed.

(** * The filter on the history that the route writes *)








(** * The readers of the Supabase module *)

Lemma hd_last_of_parts (Number : string -> number) (parts : list string) :
  parts <> [] ->
  hd NaN (map Number parts) = Number (hd EmptyString parts)
  /\ last (map Number parts) NaN = Number (last parts EmptyString).
Proof.
  intro NE. split; [destruct parts; [congruence | reflexivity]|].
  induction parts as [|p rest IH]; [congruence|].
  destruct rest as [|p' rest']; [reflexivity|].
  change (last (map Number (p :: p' :: rest')) NaN)
    with (last (map Number (p' :: rest')) NaN).
  change (last (p :: p' :: rest') EmptyString)
    with (last (p' :: rest') EmptyString).
  apply IH. discriminate.
Qed.

(** X6 — of a stored text of dot-separated components, however many they are,
    [getLastPublishedVerse] reads the first as the chapter and the last as
    the verse and ignores the others; a text of one component gives it as
    both. *)
Theorem getLastPublishedVerse_first_and_last
        (Number : string -> number) (s : Source) (parts : list string) :
  parts <> [] -> Forall (fun part => lacks "." part = true) parts ->
  Supabase.getLastPublishedVerse Number
    (Supabase.Resolves (Some (Supabase.mkVerseColumns s (join "." parts))) None)
  = Ok (Some (mkVerse s (Number (hd EmptyString parts))
                        (Number (last parts EmptyString)))).
Proof.
  intros NE HF. cbn [Supabase.getLastPublishedVerse Supabase.verse_reference
                     Supabase.scripture_source].
  rewrite (split_join "." parts NE HF).
  destruct (hd_last_of_parts Number parts NE) as [-> ->]. reflexivity.
Qed.

Lemma getLastPublishedVerse_first_and_last_witness :
  Supabase.getLastPublishedVerse readDecimal
    (Supabase.Resolves
       (Some (Supabase.mkVerseColumns SrimadBhagavatam "1.2.3")) None)
  = Ok (Some (mkVerse SrimadBhagavatam (Int 1) (Int 3)))
  /\ Supabase.getLastPublishedVerse readDecimal
       (Supabase.Resolves
          (Some (Supabase.mkVerseColumns BhagavadGita "7")) None)
     = Ok (Some (mkVerse BhagavadGita (Int 7) (Int 7))).
Proof.
  split.
  - apply (getLastPublishedVerse_first_and_last readDecimal SrimadBhagavatam
             ["1"; "2"; "3"]).
    + discriminate.
    + repeat constructor.
  - apply (getLastPublishedVerse_first_and_last readDecimal BhagavadGita ["7"]).
    + discriminate.
    + repeat constructor.
Defined.




(** * The rate limiter of the publishing route *)

Lemma checkRateLimit_in_window (id : string) (now c R : Z)
                               (store : RateLimitStore) :
  store id = Some (mkEntry c R) -> now <= R ->
  checkRateLimit id now store
  = if c >=? RATE_LIMIT_MAX_REQUESTS then (false, store)
    else (true, storeSet id (mkEntry (c + 1) R) store).
Proof.
  intros E H. unfold checkRateLimit. rewrite E. cbn [resetTime count].
  destruct (Z.gtb_spec now R); [lia|]. rewrite E. reflexivity.
Qed.

Lemma storeDelete_same (id : string) (store : RateLimitStore) :
  storeDelete id store id = None.
Proof. unfold storeDelete. rewrite String.eqb_refl. reflexivity. Qed.

Lemma storeSet_same (id : string) (e : RateLimitEntry) (store : RateLimitStore) :
  storeSet id e store id = Some e.
Proof. unfold storeSet. rewrite String.eqb_refl. reflexivity. Qed.

Lemma serve_in_window (id : string) (times : list Z) :
  forall (c R : Z) (store : RateLimitStore),
    store id = Some (mkEntry c R) ->
    (forall t, In t times -> t <= R) ->
    fst (serve id times store)
    = map (fun k => c + Z.of_nat k <? RATE_LIMIT_MAX_REQUESTS)
          (seq 0 (List.length times)).
Proof.
  induction times as [|t later IH]; intros c R store E H; [reflexivity|].
  cbn [serve List.length seq map].
  rewrite (checkRateLimit_in_window id t c R store E) by (apply H; left; reflexivity).
  rewrite <- seq_shift, map_map.
  destruct (Z.geb_spec c RATE_LIMIT_MAX_REQUESTS) as [G | G].
  - specialize (IH c R store E (fun t' Hin => H t' (or_intror Hin))).
    destruct (serve id later store) as [answers store2]. cbn [fst] in *.
    rewrite IH. f_equal.
    + symmetry. apply Z.ltb_ge. lia.
    + apply map_ext. intro k.
      destruct (Z.ltb_spec (c + Z.of_nat k) RATE_LIMIT_MAX_REQUESTS);
        destruct (Z.ltb_spec (c + Z.of_nat (S k)) RATE_LIMIT_MAX_REQUESTS);
        try reflexivity; lia.
  - specialize (IH (c + 1) R (storeSet id (mkEntry (c + 1) R) store)
                   (storeSet_same _ _ _)
                   (fun t' Hin => H t' (or_intror Hin))).
    destruct (serve id later (storeSet id (mkEntry (c + 1) R) store))
      as [answers store2]. cbn [fst] in *.
    rewrite IH. f_equal.
    + symmetry. apply Z.ltb_lt. lia.
    + apply map_ext. intro k. f_equal. lia.
Qed.

(** X9 — of the requests that one client makes from its first request on, up to
    one hour after it, the first five are allowed and every further one is
    refused. *)
Theorem rate_limit_quota
        (id : string) (first : Z) (later : list Z) (store : RateLimitStore) :
  store id = None ->
  (forall t, In t later -> t <= first + RATE_LIMIT_WINDOW_MS) ->
  fst (serve id (first :: later) store)
  = map (fun k => (k <? 5)%nat) (seq 0 (S (List.length later))).
Proof.
  intros E H. cbn [serve]. unfold checkRateLimit at 1. rewrite E, E.
  pose proof (serve_in_window id later 1 (first + RATE_LIMIT_WINDOW_MS)
                (storeSet id (mkEntry 1 (first + RATE_LIMIT_WINDOW_MS)) store)
                (storeSet_same _ _ _) H) as HS.
  destruct (serve id later _) as [answers store2]. cbn [fst] in *.
  rewrite HS. cbn [seq map]. f_equal.
  rewrite <- seq_shift, map_map. apply map_ext. intro k.
  unfold RATE_LIMIT_MAX_REQUESTS.
  destruct (Z.ltb_spec (1 + Z.of_nat k) 5);
    destruct (Nat.ltb_spec (Datatypes.S k) 5);
    try reflexivity; lia.
Qed.

Lemma rate_limit_quota_witness :
  fst (serve "203.0.113.7" [1000; 1001; 1002; 1003; 1004; 1005; 3601000]
             emptyStore)
  = [true; true; true; true; true; false; false].
Proof.
  apply (rate_limit_quota "203.0.113.7" 1000
           [1001; 1002; 1003; 1004; 1005; 3601000] emptyStore).
  - reflexivity.
  - intros t Hin. unfold RATE_LIMIT_WINDOW_MS. cbn [In] in Hin.
    repeat (destruct Hin as [<- | Hin]; [lia|]). contradiction.
Defined.

(** X10 — a request later than the reset time of its client's entry is allowed,
    whatever the count was, and opens a new window of one hour with count
    1; a request at the reset time itself, or earlier, by a client whose
    count has reached five is refused and leaves the store as it was. *)
Theorem rate_limit_window
        (id : string) (now : Z) (entry : RateLimitEntry)
        (store : RateLimitStore) :
  store id = Some entry ->
  (resetTime entry < now ->
   fst (checkRateLimit id now store) = true
   /\ snd (checkRateLimit id now store) id
      = Some (mkEntry 1 (now + RATE_LIMIT_WINDOW_MS)))
  /\ (now <= resetTime entry -> RATE_LIMIT_MAX_REQUESTS <= count entry ->
      checkRateLimit id now store = (false, store)).
Proof.
  intro E. split.
  - intro H. unfold checkRateLimit. rewrite E.
    destruct (Z.gtb_spec now (resetTime entry)); [|lia].
    rewrite storeDelete_same. cbn [fst snd].
    split; [reflexivity | apply storeSet_same].
  - intros H C. destruct entry as [c R]. cbn [resetTime count] in *.
    rewrite (checkRateLimit_in_window id now c R store E H).
    destruct (Z.geb_spec c RATE_LIMIT_MAX_REQUESTS); [reflexivity | lia].
Qed.

Lemma rate_limit_window_witness :
  (fst (checkRateLimit "a" 3601 (storeSet "a" (mkEntry 5 3600) emptyStore)) = true
   /\ snd (checkRateLimit "a" 3601 (storeSet "a" (mkEntry 5 3600) emptyStore)) "a"
      = Some (mkEntry 1 (3601 + RATE_LIMIT_WINDOW_MS)))
  /\ checkRateLimit "a" 3600 (storeSet "a" (mkEntry 5 3600) emptyStore)
     = (false, storeSet "a" (mkEntry 5 3600) emptyStore).
Proof.
  pose proof (rate_limit_window "a" 3601 (mkEntry 5 3600)
                (storeSet "a" (mkEntry 5 3600) emptyStore) eq_refl) as [H1 _].
  pose proof (rate_limit_window "a" 3600 (mkEntry 5 3600)
                (storeSet "a" (mkEntry 5 3600) emptyStore) eq_refl) as [_ H2].
  split.
  - apply H1. cbn. lia.
  - apply H2; cbn; unfold RATE_LIMIT_MAX_REQUESTS; lia.
Defined.

(** X11 — a call for one client never changes the entry of another client. *)
Theorem rate_limit_isolation
        (id other : string) (now : Z) (store : RateLimitStore) :
  other <> id ->
  snd (checkRateLimit id now store) other = store other.
Proof.
  intro NE. apply String.eqb_neq in NE.
  assert (D : forall st : RateLimitStore, storeDelete id st other = st other)
    by (intro st; unfold storeDelete; rewrite NE; reflexivity).
  assert (U : forall e (st : RateLimitStore), storeSet id e st other = st other)
    by (intros e st; unfold storeSet; rewrite NE; reflexivity).
  unfold checkRateLimit.
  destruct (store id) as [e|] eqn:E.
  - destruct (now >? resetTime e).
    + rewrite storeDelete_same. cbn [snd].
      rewrite U, D. reflexivity.
    + rewrite E. destruct (count e >=? RATE_LIMIT_MAX_REQUESTS); cbn [snd];
        [reflexivity | apply U].
  - rewrite E. cbn [snd]. apply U.
Qed.

Lemma rate_limit_isolation_witness :
  snd (checkRateLimit "a" 10 (storeSet "b" (mkEntry 5 3600) emptyStore)) "b"
  = Some (mkEntry 5 3600).
Proof.
  apply (rate_limit_isolation "a" "b" 10
           (storeSet "b" (mkEntry 5 3600) emptyStore)).
  discriminate.
Defined.

(** * The authentication of the publishing route *)

Lemma replaceFirst_Bearer (rest : string) :
  replaceFirst "Bearer " "" ("Bearer " ++ rest) = rest.
Proof. destruct rest; reflexivity. Qed.

(** X12 — without a configured secret, or with an empty one, every request is
    refused.  With a non-empty secret: a request whose authorization header
    is ["Bearer "] followed by the secret is accepted; a request with a
    non-empty authorization header that does not give the secret is refused
    even when its [token] query parameter is the secret; and without an
    authorization header the [token] query parameter decides. *)
Theorem validateAuth_decisions (secret : string) :
  (forall header tokenParam,
     validateAuth None header tokenParam = false
     /\ validateAuth (Some "") header tokenParam = false)
  /\ (secret <> "" ->
      (forall tokenParam,
         validateAuth (Some secret) (Some ("Bearer " ++ secret)%string) tokenParam
         = true)
      /\ (forall header,
            header <> "" -> replaceFirst "Bearer " "" header <> secret ->
            validateAuth (Some secret) (Some header) (Some secret) = false)
      /\ (forall tokenParam,
            validateAuth (Some secret) None (Some tokenParam)
            = String.eqb tokenParam secret
            /\ validateAuth (Some secret) (Some "") (Some tokenParam)
               = String.eqb tokenParam secret)).
Proof.
  split; [intros header tokenParam; split; reflexivity|].
  intro NE. destruct secret as [|c secret]; [congruence|].
  split; [|split].
  - intro tokenParam. unfold validateAuth.
    change (truthy (Some ("Bearer " ++ String c secret)%string)) with true.
    cbn [truthy negb].
    rewrite replaceFirst_Bearer. apply String.eqb_refl.
  - intros header HN HD. destruct header as [|h header]; [congruence|].
    unfold validateAuth. cbn [truthy negb].
    apply String.eqb_neq. exact HD.
  - intro tokenParam. unfold validateAuth. cbn [truthy negb].
    destruct tokenParam; split; reflexivity.
Qed.

Lemma validateAuth_decisions_witness :
  (forall tokenParam,
     validateAuth (Some "s3cret") (Some "Bearer s3cret") tokenParam = true)
  /\ validateAuth (Some "s3cret") (Some "Bearer wrong") (Some "s3cret") = false.
Proof.
  assert (NE : "s3cret" <> "") by discriminate.
  destruct (proj2 (validateAuth_decisions "s3cret") NE) as [H1 [H2 _]].
  split; [exact H1|].
  apply H2; [discriminate | cbn; discriminate].
Defined.

(** * The slug generator *)

Lemma isHyphen_eq (c : ascii) : isHyphen c = true -> c = "-"%char.
Proof.
  unfold isHyphen, codeOf. intro H. apply Nat.eqb_eq in H.
  rewrite <- (ascii_nat_embedding c), H. reflexivity.
Qed.

Lemma slugChar_not_upper (c : ascii) : isSlugChar c = true -> isUpper c = false.
Proof.
  unfold isSlugChar, isUpper. intro H. apply not_true_iff_false. intro U.
  rewrite !orb_true_iff, !andb_true_iff, !Nat.leb_le, Nat.eqb_eq in H.
  rewrite andb_true_iff, !Nat.leb_le in U. lia.
Qed.

Lemma slugChar_not_whitespace (c : ascii) :
  isSlugChar c = true -> isWhitespace c = false.
Proof.
  unfold isSlugChar, isWhitespace. intro H. apply not_true_iff_false. intro U.
  rewrite !orb_true_iff, !andb_true_iff, !Nat.leb_le, Nat.eqb_eq in H.
  rewrite orb_true_iff, andb_true_iff, !Nat.leb_le, Nat.eqb_eq in U. lia.
Qed.

Lemma hyphen_is_slugChar (c : ascii) : isHyphen c = true -> isSlugChar c = true.
Proof.
  unfold isHyphen, isSlugChar. intro H. rewrite H. apply orb_true_r.
Qed.

(** Each pass keeps the characters within a class that holds the hyphen. *)
Lemma allChars_replaceRuns (q p : ascii -> bool) (s : string) :
  q "-"%char = true -> allChars q s = true ->
  forall b, allChars q (replaceRuns p b s) = true.
Proof.
  intros Hq. induction s as [|c s IH]; cbn [allChars replaceRuns];
    [reflexivity|].
  intro H. apply andb_true_iff in H. destruct H as [Hc Hs]. intro b.
  destruct (p c); [destruct b|]; cbn [allChars];
    rewrite ?Hq, ?Hc, ?(IH Hs); reflexivity.
Qed.

Lemma allChars_keepChars (p : ascii -> bool) (s : string) :
  allChars p (keepChars p s) = true.
Proof.
  induction s as [|c s IH]; cbn [keepChars allChars]; [reflexivity|].
  destruct (p c) eqn:E; cbn [allChars]; rewrite ?E, IH; reflexivity.
Qed.

Lemma allChars_dropLeading (q p : ascii -> bool) (s : string) :
  allChars q s = true -> allChars q (dropLeading p s) = true.
Proof.
  induction s as [|c s IH]; cbn [allChars dropLeading]; [reflexivity|].
  intro H. destruct (p c); [|exact H].
  apply andb_true_iff in H. apply IH. exact (proj2 H).
Qed.

Lemma allChars_dropTrailing (q p : ascii -> bool) (s : string) :
  allChars q s = true -> allChars q (dropTrailing p s) = true.
Proof.
  induction s as [|c s IH]; cbn [allChars dropTrailing]; [reflexivity|].
  intro H. apply andb_true_iff in H. destruct H as [Hc Hs].
  specialize (IH Hs). destruct (dropTrailing p s) as [|d r].
  - destruct (p c); cbn [allChars]; rewrite ?Hc; reflexivity.
  - cbn [allChars] in *. rewrite Hc, IH. reflexivity.
Qed.

Lemma allChars_take (q : ascii -> bool) (n : nat) :
  forall s, allChars q s = true -> allChars q (take n s) = true.
Proof.
  induction n as [|n IH]; intros [|c s]; cbn [take allChars]; try reflexivity.
  intro H. apply andb_true_iff in H. destruct H as [Hc Hs].
  rewrite Hc, (IH s Hs). reflexivity.
Qed.

Lemma take_length (n : nat) :
  forall s, (String.length (take n s) <= n)%nat.
Proof.
  induction n as [|n IH]; intros [|c s]; cbn [take String.length]; try lia.
  specialize (IH s). lia.
Qed.

Lemma take_all (n : nat) :
  forall s, (String.length s <= n)%nat -> take n s = s.
Proof.
  induction n as [|n IH]; intros [|c s]; cbn [take String.length]; intro H;
    try reflexivity; try lia.
  rewrite IH by lia. reflexivity.
Qed.

(** After the runs of hyphens are replaced, no two hyphens are adjacent. *)
Lemma replaceRuns_hyphen_shape (s : string) :
  forall b,
    noDoubleHyphen (replaceRuns isHyphen b s) = true
    /\ (b = true -> startsWithHyphen (replaceRuns isHyphen b s) = false).
Proof.
  induction s as [|c s IH]; intro b; cbn [replaceRuns]; [split; reflexivity|].
  destruct (isHyphen c) eqn:E.
  - destruct (IH true) as [N S]. destruct b.
    + split; [exact N | intros _; apply S; reflexivity].
    + split; [|discriminate].
      cbn [noDoubleHyphen]. rewrite (S eq_refl), andb_false_r, N. reflexivity.
  - destruct (IH false) as [N _]. split.
    + cbn [noDoubleHyphen]. rewrite E, N. reflexivity.
    + intros _. cbn [startsWithHyphen]. exact E.
Qed.

Lemma noDoubleHyphen_cons (c : ascii) (s : string) :
  noDoubleHyphen (String c s)
  = negb (isHyphen c && startsWithHyphen s) && noDoubleHyphen s.
Proof. reflexivity. Qed.

Lemma noDoubleHyphen_tail (c : ascii) (s : string) :
  noDoubleHyphen (String c s) = true -> noDoubleHyphen s = true.
Proof.
  cbn [noDoubleHyphen]. intro H. apply andb_true_iff in H. exact (proj2 H).
Qed.

Lemma noDoubleHyphen_dropLeading (p : ascii -> bool) (s : string) :
  noDoubleHyphen s = true -> noDoubleHyphen (dropLeading p s) = true.
Proof.
  induction s as [|c s IH]; cbn [dropLeading]; [reflexivity|].
  intro H. destruct (p c); [|exact H].
  apply IH. exact (noDoubleHyphen_tail c s H).
Qed.

Lemma startsWithHyphen_dropTrailing (s : string) :
  startsWithHyphen s = false ->
  startsWithHyphen (dropTrailing isHyphen s) = false.
Proof.
  destruct s as [|c s]; cbn [dropTrailing startsWithHyphen]; [reflexivity|].
  intro H. destruct (dropTrailing isHyphen s); [rewrite H|];
    cbn [startsWithHyphen]; exact H.
Qed.

Lemma startsWithHyphen_dropTrailing_le (s : string) :
  startsWithHyphen (dropTrailing isHyphen s) = true ->
  startsWithHyphen s = true.
Proof.
  intro H. destruct (startsWithHyphen s) eqn:E; [reflexivity|].
  rewrite (startsWithHyphen_dropTrailing s E) in H. discriminate H.
Qed.

Lemma noDoubleHyphen_dropTrailing (s : string) :
  noDoubleHyphen s = true -> noDoubleHyphen (dropTrailing isHyphen s) = true.
Proof.
  induction s as [|c s IH]; cbn [dropTrailing]; [reflexivity|].
  intro H. pose proof (noDoubleHyphen_tail c s H) as Hs. specialize (IH Hs).
  cbn [noDoubleHyphen] in H. apply andb_true_iff in H. destruct H as [Hc _].
  destruct (dropTrailing isHyphen s) as [|d r] eqn:D.
  - destruct (isHyphen c); cbn [noDoubleHyphen startsWithHyphen];
      rewrite ?andb_false_r; reflexivity.
  - rewrite noDoubleHyphen_cons, IH, andb_true_r.
    apply negb_true_iff. apply negb_true_iff in Hc.
    destruct (isHyphen c); [|reflexivity]. cbn [andb] in *.
    destruct (startsWithHyphen (String d r)) eqn:S; [|reflexivity].
    rewrite <- D in S. apply startsWithHyphen_dropTrailing_le in S.
    congruence.
Qed.

Lemma startsWithHyphen_take (n : nat) (s : string) :
  startsWithHyphen s = false -> startsWithHyphen (take n s) = false.
Proof.
  destruct n as [|n], s as [|c s]; cbn [take startsWithHyphen]; auto.
Qed.

Lemma noDoubleHyphen_take (n : nat) :
  forall s, noDoubleHyphen s = true -> noDoubleHyphen (take n s) = true.
Proof.
  induction n as [|n IH]; intros [|c s]; cbn [take]; try reflexivity.
  intro H. pose proof (noDoubleHyphen_tail c s H) as Hs.
  cbn [noDoubleHyphen] in *. rewrite (IH s Hs), andb_true_r.
  apply andb_true_iff in H. destruct H as [Hc _].
  apply negb_true_iff. apply negb_true_iff in Hc.
  destruct (isHyphen c); [|reflexivity]. cbn [andb] in *.
  apply startsWithHyphen_take. exact Hc.
Qed.

Lemma startsWithHyphen_dropLeading (s : string) :
  startsWithHyphen (dropLeading isHyphen s) = false.
Proof.
  induction s as [|c s IH]; cbn [dropLeading]; [reflexivity|].
  destruct (isHyphen c) eqn:E; [exact IH | exact E].
Qed.

(** X13 — the shape of every slug: only lower-case letters, digits and hyphens,
    at most 100 characters, no two adjacent hyphens, no hyphen in front. *)
Theorem generateSlug_shape (title : string) :
  isAscii title ->
  allChars isSlugChar (generateSlug title) = true
  /\ (String.length (generateSlug title) <= 100)%nat
  /\ noDoubleHyphen (generateSlug title) = true
  /\ startsWithHyphen (generateSlug title) = false.
Proof.
  intros _. unfold generateSlug, trimHyphens.
  set (kept := keepChars isSlugChar
                 (replaceRuns isWhitespace false (toLowerCase title))).
  split; [|split; [|split]].
  - apply allChars_take, allChars_dropTrailing, allChars_dropLeading.
    apply allChars_replaceRuns; [reflexivity|]. apply allChars_keepChars.
  - apply take_length.
  - apply noDoubleHyphen_take, noDoubleHyphen_dropTrailing,
      noDoubleHyphen_dropLeading.
    apply (replaceRuns_hyphen_shape kept false).
  - apply startsWithHyphen_take, startsWithHyphen_dropTrailing,
      startsWithHyphen_dropLeading.
Qed.

Lemma generateSlug_shape_witness :
  allChars isSlugChar (generateSlug "  The Path -- to Devotion!  ") = true
  /\ (String.length (generateSlug "  The Path -- to Devotion!  ") <= 100)%nat
  /\ noDoubleHyphen (generateSlug "  The Path -- to Devotion!  ") = true
  /\ startsWithHyphen (generateSlug "  The Path -- to Devotion!  ") = false.
Proof.
  apply (generateSlug_shape "  The Path -- to Devotion!  "). reflexivity.
Defined.

Lemma toLowerCase_slug (s : string) :
  allChars isSlugChar s = true -> toLowerCase s = s.
Proof.
  unfold toLowerCase.
  induction s as [|c s IH]; cbn [allChars mapChars]; [reflexivity|].
  intro H. apply andb_true_iff in H. destruct H as [Hc Hs].
  rewrite (IH Hs). unfold lowerChar. rewrite (slugChar_not_upper c Hc).
  reflexivity.
Qed.

Lemma replaceRuns_whitespace_slug (s : string) :
  allChars isSlugChar s = true ->
  forall b, replaceRuns isWhitespace b s = s.
Proof.
  induction s as [|c s IH]; cbn [allChars replaceRuns]; [reflexivity|].
  intro H. apply andb_true_iff in H. destruct H as [Hc Hs]. intro b.
  rewrite (slugChar_not_whitespace c Hc), (IH Hs). reflexivity.
Qed.

Lemma keepChars_all (p : ascii -> bool) (s : string) :
  allChars p s = true -> keepChars p s = s.
Proof.
  induction s as [|c s IH]; cbn [allChars keepChars]; [reflexivity|].
  intro H. apply andb_true_iff in H. destruct H as [Hc Hs].
  rewrite Hc, (IH Hs). reflexivity.
Qed.

Lemma replaceRuns_hyphen_fixed (s : string) :
  noDoubleHyphen s = true ->
  forall b, (b = true -> startsWithHyphen s = false) ->
            replaceRuns isHyphen b s = s.
Proof.
  induction s as [|c s IH]; [reflexivity|].
  intros H b Hb. rewrite noDoubleHyphen_cons in H.
  apply andb_true_iff in H. destruct H as [Hc Hs].
  apply negb_true_iff in Hc. cbn [replaceRuns startsWithHyphen] in *.
  destruct (isHyphen c) eqn:E.
  - cbn [andb] in Hc. destruct b; [specialize (Hb eq_refl); discriminate Hb|].
    rewrite (IH Hs true (fun _ => Hc)), (isHyphen_eq c E). reflexivity.
  - rewrite (IH Hs false); [reflexivity | discriminate].
Qed.

Lemma dropLeading_fixed (s : string) :
  startsWithHyphen s = false -> dropLeading isHyphen s = s.
Proof.
  destruct s as [|c s]; cbn [startsWithHyphen dropLeading]; [reflexivity|].
  intro H. rewrite H. reflexivity.
Qed.

Lemma endsWithHyphen_cons (c d : ascii) (s : string) :
  endsWithHyphen (String c (String d s)) = endsWithHyphen (String d s).
Proof. reflexivity. Qed.

Lemma dropTrailing_fixed (s : string) :
  endsWithHyphen s = false -> dropTrailing isHyphen s = s.
Proof.
  induction s as [|c s IH]; [reflexivity|].
  destruct s as [|d s].
  - cbn [endsWithHyphen dropTrailing]. intro H. rewrite H. reflexivity.
  - rewrite endsWithHyphen_cons. intro H.
    change (dropTrailing isHyphen (String c (String d s)))
      with (match dropTrailing isHyphen (String d s) with
            | EmptyString =>
                if isHyphen c then EmptyString else String c EmptyString
            | String x r => String c (String x r)
            end).
    rewrite (IH H). reflexivity.
Qed.

Lemma endsWithHyphen_dropTrailing (s : string) :
  endsWithHyphen (dropTrailing isHyphen s) = false.
Proof.
  induction s as [|c s IH]; cbn [dropTrailing]; [reflexivity|].
  destruct (dropTrailing isHyphen s) as [|d r].
  - destruct (isHyphen c) eqn:E; cbn [endsWithHyphen]; [reflexivity | exact E].
  - rewrite endsWithHyphen_cons. exact IH.
Qed.

(** A well-formed slug is left as it is. *)
Lemma generateSlug_fixed (s : string) :
  allChars isSlugChar s = true -> noDoubleHyphen s = true ->
  startsWithHyphen s = false -> endsWithHyphen s = false ->
  (String.length s <= 100)%nat ->
  generateSlug s = s.
Proof.
  intros HA HN HS HE HL. unfold generateSlug, trimHyphens.
  rewrite (toLowerCase_slug s HA), (replaceRuns_whitespace_slug s HA),
    (keepChars_all isSlugChar s HA),
    (replaceRuns_hyphen_fixed s HN false ltac:(discriminate)),
    (dropLeading_fixed s HS), (dropTrailing_fixed s HE).
  apply take_all. exact HL.
Qed.

(** No pass makes the string longer. *)
Lemma mapChars_length (f : ascii -> ascii) (s : string) :
  String.length (mapChars f s) = String.length s.
Proof.
  induction s as [|c s IH]; cbn [mapChars String.length]; [|rewrite IH];
    reflexivity.
Qed.

Lemma replaceRuns_length (p : ascii -> bool) (s : string) :
  forall b, (String.length (replaceRuns p b s) <= String.length s)%nat.
Proof.
  induction s as [|c s IH]; intro b; cbn [replaceRuns String.length]; [lia|].
  destruct (p c); [destruct b|]; cbn [String.length];
    [specialize (IH true) | specialize (IH true) | specialize (IH false)]; lia.
Qed.

Lemma keepChars_length (p : ascii -> bool) (s : string) :
  (String.length (keepChars p s) <= String.length s)%nat.
Proof.
  induction s as [|c s IH]; cbn [keepChars String.length]; [lia|].
  destruct (p c); cbn [String.length]; lia.
Qed.

Lemma dropLeading_length (p : ascii -> bool) (s : string) :
  (String.length (dropLeading p s) <= String.length s)%nat.
Proof.
  induction s as [|c s IH]; cbn [dropLeading String.length]; [lia|].
  destruct (p c); cbn [String.length]; lia.
Qed.

Lemma dropTrailing_length (p : ascii -> bool) (s : string) :
  (String.length (dropTrailing p s) <= String.length s)%nat.
Proof.
  induction s as [|c s IH]; cbn [dropTrailing String.length]; [lia|].
  destruct (dropTrailing p s) as [|d r];
    [destruct (p c)|]; cbn [String.length] in *; lia.
Qed.

(** X14 — applied to the slug of a title of at most 100 characters, the
    generator returns that slug unchanged. *)
Theorem generateSlug_idempotent (title : string) :
  isAscii title -> (String.length title <= 100)%nat ->
  generateSlug (generateSlug title) = generateSlug title.
Proof.
  intros _ HL.
  set (body := trimHyphens
                 (replaceRuns isHyphen false
                    (keepChars isSlugChar
                       (replaceRuns isWhitespace false (toLowerCase title))))).
  assert (LB : (String.length body <= String.length title)%nat).
  { unfold body, trimHyphens, toLowerCase.
    pose proof (dropTrailing_length isHyphen
                  (dropLeading isHyphen
                     (replaceRuns isHyphen false
                        (keepChars isSlugChar
                           (replaceRuns isWhitespace false
                              (mapChars lowerChar title)))))).
    pose proof (dropLeading_length isHyphen
                  (replaceRuns isHyphen false
                     (keepChars isSlugChar
                        (replaceRuns isWhitespace false
                           (mapChars lowerChar title))))).
    pose proof (replaceRuns_length isHyphen
                  (keepChars isSlugChar
                     (replaceRuns isWhitespace false
                        (mapChars lowerChar title))) false).
    pose proof (keepChars_length isSlugChar
                  (replaceRuns isWhitespace false (mapChars lowerChar title))).
    pose proof (replaceRuns_length isWhitespace (mapChars lowerChar title) false).
    pose proof (mapChars_length lowerChar title). lia. }
  assert (E : generateSlug title = body).
  { unfold generateSlug. fold body. apply take_all. lia. }
  rewrite E. apply generateSlug_fixed.
  - unfold body, trimHyphens.
    apply allChars_dropTrailing, allChars_dropLeading.
    apply allChars_replaceRuns; [reflexivity|]. apply allChars_keepChars.
  - unfold body, trimHyphens.
    apply noDoubleHyphen_dropTrailing, noDoubleHyphen_dropLeading.
    apply (replaceRuns_hyphen_shape _ false).
  - unfold body, trimHyphens.
    apply startsWithHyphen_dropTrailing, startsWithHyphen_dropLeading.
  - unfold body, trimHyphens. apply endsWithHyphen_dropTrailing.
  - lia.
Qed.

Lemma generateSlug_idempotent_witness :
  generateSlug (generateSlug "Bhagavad Gita 2.13 - Understanding the Soul")
  = generateSlug "Bhagavad Gita 2.13 - Understanding the Soul".
Proof.
  apply (generateSlug_idempotent "Bhagavad Gita 2.13 - Understanding the Soul").
  - reflexivity.
  - cbn. lia.
Defined.

Lemma take_length_exact (n : nat) :
  forall s, (n <= String.length s)%nat -> String.length (take n s) = n.
Proof.
  induction n as [|n IH]; intros [|c s]; cbn [take String.length]; intro H;
    try reflexivity; try lia.
  rewrite IH by lia. reflexivity.
Qed.

(** X15 — a slug ends with a hyphen only when the title was cut at 100
    characters. *)
Theorem generateSlug_trailing_hyphen (title : string) :
  isAscii title -> endsWithHyphen (generateSlug title) = true ->
  String.length (generateSlug title) = 100%nat
  /\ (100 < String.length title)%nat.
Proof.
  intros _ HE.
  set (body := trimHyphens
                 (replaceRuns isHyphen false
                    (keepChars isSlugChar
                       (replaceRuns isWhitespace false (toLowerCase title))))).
  assert (LB : (String.length body <= String.length title)%nat).
  { unfold body, trimHyphens, toLowerCase.
    pose proof (dropTrailing_length isHyphen
                  (dropLeading isHyphen
                     (replaceRuns isHyphen false
                        (keepChars isSlugChar
                           (replaceRuns isWhitespace false
                              (mapChars lowerChar title)))))).
    pose proof (dropLeading_length isHyphen
                  (replaceRuns isHyphen false
                     (keepChars isSlugChar
                        (replaceRuns isWhitespace false
                           (mapChars lowerChar title))))).
    pose proof (replaceRuns_length isHyphen
                  (keepChars isSlugChar
                     (replaceRuns isWhitespace false
                        (mapChars lowerChar title))) false).
    pose proof (keepChars_length isSlugChar
                  (replaceRuns isWhitespace false (mapChars lowerChar title))).
    pose proof (replaceRuns_length isWhitespace (mapChars lowerChar title) false).
    pose proof (mapChars_length lowerChar title). lia. }
  change (generateSlug title) with (take 100 body) in *.
  destruct (Nat.le_gt_cases (String.length body) 100) as [L | G].
  - rewrite (take_all 100 body L) in HE. unfold body, trimHyphens in HE.
    rewrite endsWithHyphen_dropTrailing in HE. discriminate HE.
  - split; [apply take_length_exact; lia | lia].
Qed.

Lemma generateSlug_trailing_hyphen_witness :
  String.length (generateSlug longTitle) = 100%nat
  /\ (100 < String.length longTitle)%nat.
Proof.
  apply (generateSlug_trailing_hyphen longTitle); reflexivity.
Defined.

(** * Unique slugs *)

Lemma includesSlug_In (existing : list string) (slug : string) :
  includesSlug existing slug = true <-> In slug existing.
Proof.
  unfold includesSlug. rewrite existsb_exists. split.
  - intros [x [Hin E]]. apply String.eqb_eq in E. subst x. exact Hin.
  - intro Hin. exists slug. split; [exact Hin | apply String.eqb_refl].
Qed.

Lemma append_inj_l (a x y : string) : (a ++ x = a ++ y)%string -> x = y.
Proof.
  induction a as [|c a IH]; cbn [append]; intro H; [exact H|].
  injection H as H. exact (IH H).
Qed.

Lemma append_length (a b : string) :
  String.length (a ++ b) = (String.length a + String.length b)%nat.
Proof.
  induction a as [|c a IH]; cbn [append String.length]; [|rewrite IH];
    reflexivity.
Qed.

Lemma numbered_inj (slug : string) (j k : Z) :
  numbered slug j = numbered slug k -> j = k.
Proof.
  unfold numbered. intro H. apply append_inj_l in H.
  apply (append_inj_l "-") in H.
  apply number_to_string_inj in H. congruence.
Qed.

Lemma numbered_not_slug (slug : string) (k : Z) : numbered slug k <> slug.
Proof.
  intro H. apply (f_equal String.length) in H. unfold numbered in H.
  rewrite append_length in H. cbn [append String.length] in H. lia.
Qed.

(** The loop of [ensureUnique] ends within its fuel, at the least counter
    whose numbered slug is free. *)
Lemma firstFreeCounter_spec (slug : string) (existing : list string)
                            (fuel : nat) :
  forall (remaining : list string) (c : Z),
    (List.length remaining < fuel)%nat ->
    (forall j, c <= j ->
               (In (numbered slug j) existing <-> In (numbered slug j) remaining)) ->
    exists k,
      firstFreeCounter fuel slug existing c = Some k
      /\ c <= k <= c + Z.of_nat (List.length remaining)
      /\ ~ In (numbered slug k) existing
      /\ (forall j, c <= j < k -> In (numbered slug j) existing).
Proof.
  induction fuel as [|fuel IH]; intros remaining c HL HR; [lia|].
  cbn [firstFreeCounter].
  destruct (includesSlug existing (numbered slug c)) eqn:E.
  - apply includesSlug_In in E.
    assert (Hin : In (numbered slug c) remaining) by (apply HR; [lia | exact E]).
    pose proof (remove_length_lt string_dec remaining (numbered slug c) Hin) as RL.
    destruct (IH (remove string_dec (numbered slug c) remaining) (c + 1))
      as [k [Hk [Hb [Hf Hm]]]].
    + lia.
    + intros j Hj. rewrite (HR j ltac:(lia)). split.
      * intro H. apply in_in_remove; [|exact H].
        intro EQ. apply numbered_inj in EQ. lia.
      * intro H. apply in_remove in H. exact (proj1 H).
    + exists k. split; [exact Hk|]. split; [lia|]. split; [exact Hf|].
      intros j Hj. destruct (Z.eq_dec j c) as [-> | NE]; [exact E|].
      apply Hm. lia.
  - exists c. split; [reflexivity|]. split; [lia|]. split.
    + intro H. apply includesSlug_In in H. congruence.
    + intros j Hj. lia.
Qed.

Lemma firstFreeCounter_found (slug : string) (existing : list string) :
  In slug existing ->
  exists k,
    firstFreeCounter (S (List.length existing)) slug existing 2 = Some k
    /\ 2 <= k <= Z.of_nat (List.length existing) + 1
    /\ ~ In (numbered slug k) existing
    /\ (forall j, 2 <= j < k -> In (numbered slug j) existing).
Proof.
  intro Hin.
  pose proof (remove_length_lt string_dec existing slug Hin) as RL.
  destruct (firstFreeCounter_spec slug existing (S (List.length existing))
              (remove string_dec slug existing) 2)
    as [k [Hk [Hb [Hf Hm]]]].
  - lia.
  - intros j _. split.
    + intro H. apply in_in_remove; [apply numbered_not_slug | exact H].
    + intro H. apply in_remove in H. exact (proj1 H).
  - exists k. split; [exact Hk|]. split; [lia|]. split; assumption.
Qed.

(** X16 — [ensureUnique] always returns.  A slug that is not taken is returned
    as it is.  For a taken slug the result is numbered with the least
    counter from 2 on whose numbered slug is free, a counter that exceeds
    the number of existing slugs by at most one; the base before the number
    is the slug itself, or a shorter beginning of it when the numbered slug
    would exceed 100 characters. *)
Theorem ensureUnique_numbering (slug : string) (existing : list string) :
  exists u,
    ensureUnique slug existing = Some u
    /\ (~ In slug existing -> u = slug)
    /\ (In slug existing ->
        exists k base,
          2 <= k <= Z.of_nat (List.length existing) + 1
          /\ (forall j, 2 <= j < k -> In (numbered slug j) existing)
          /\ ~ In (numbered slug k) existing
          /\ u = numbered base k
          /\ (((String.length (numbered slug k) <= 100)%nat /\ base = slug)
              \/ ((100 < String.length (numbered slug k))%nat
                  /\ base
                     = sliceTo (100 - Z.of_nat (String.length
                                  ("-" ++ number_to_string (Int k))))
                               slug))).
Proof.
  unfold ensureUnique.
  destruct (includesSlug existing slug) eqn:E; unfold negb.
  - apply includesSlug_In in E.
    destruct (firstFreeCounter_found slug existing E) as [k [Hk [Hb [Hf Hm]]]].
    rewrite Hk.
    destruct (Nat.ltb_spec 100 (String.length (numbered slug k))) as [G | L].
    + eexists. split; [reflexivity|]. split; [intro H; contradiction|].
      intros _. exists k. eexists. split; [exact Hb|]. split; [exact Hm|].
      split; [exact Hf|]. split; [reflexivity|]. right. split; [exact G|].
      reflexivity.
    + eexists. split; [reflexivity|]. split; [intro H; contradiction|].
      intros _. exists k, slug. split; [exact Hb|]. split; [exact Hm|].
      split; [exact Hf|]. split; [reflexivity|]. left. split; [exact L|].
      reflexivity.
  - exists slug. split; [reflexivity|]. split; [reflexivity|].
    intro H. apply includesSlug_In in H. congruence.
Qed.

Lemma trimmed_length (slug suffix : string) :
  (100 < String.length slug + String.length suffix)%nat ->
  (100 <= String.length
            (sliceTo (100 - Z.of_nat (String.length suffix)) slug ++ suffix))%nat.
Proof.
  intro G. rewrite append_length. unfold sliceTo.
  destruct (Z.ltb_spec (100 - Z.of_nat (String.length suffix)) 0).
  - lia.
  - rewrite take_length_exact by lia. lia.
Qed.

(** X17 — a result of fewer than 100 characters is not among the existing
    slugs. *)
Theorem ensureUnique_fresh (slug : string) (existing : list string)
                           (u : string) :
  ensureUnique slug existing = Some u ->
  (String.length u < 100)%nat ->
  ~ In u existing.
Proof.
  unfold ensureUnique.
  destruct (includesSlug existing slug) eqn:E; unfold negb.
  - apply includesSlug_In in E.
    destruct (firstFreeCounter_found slug existing E) as [k [Hk [Hb [Hf Hm]]]].
    rewrite Hk.
    destruct (Nat.ltb_spec 100 (String.length (numbered slug k))) as [G | L].
    + intros H HL. injection H as <-. exfalso.
      assert (GS : (100 < String.length slug
                          + String.length ("-" ++ number_to_string (Int k)))%nat).
      { unfold numbered in G. rewrite append_length in G. exact G. }
      pose proof (trimmed_length slug _ GS) as TL.
      apply (Nat.lt_irrefl 100).
      eapply Nat.le_lt_trans; [exact TL | exact HL].
    + intros H _. injection H as <-. exact Hf.
  - intros H _. injection H as <-. intro Hin.
    apply includesSlug_In in Hin. congruence.
Qed.

Lemma ensureUnique_fresh_witness :
  ~ In "my-post-3" ["my-post"; "my-post-2"; "other"].
Proof.
  apply (ensureUnique_fresh "my-post" ["my-post"; "my-post-2"; "other"]).
  - reflexivity.
  - cbn. lia.
Defined.

(** * The selector in ordinary operation *)

Lemma orbit_app {A : Type} (f : A -> A) (a b : nat) :
  forall x, orbit (a + b) f x = orbit a f x ++ orbit b f (iter a f x).
Proof.
  induction a as [|a IH]; intro x; [reflexivity|].
  cbn [Nat.add orbit iter app]. rewrite IH. reflexivity.
Qed.


(** The candidates after a valid reference are pairwise distinct, up to
    1545 of them. *)
Lemma candidates_NoDup (last : VerseReference) (n : nat) :
  valid last -> (n <= totalVerses)%nat ->
  NoDup (orbit n getNextSequentialVerse (getNextSequentialVerse last)).
Proof.
  intros V Hn.
  destruct (valid_on_walk _ (next_valid last V)) as [k [_ E]].
  pose proof (proj2 (cycle_from_any_point _ getNextSequentialVerse totalVerses
                       firstVerse canon_closed canon_NoDup k)) as ND.
  rewrite <- E in ND.
  replace totalVerses with (n + (totalVerses - n))%nat in ND by lia.
  rewrite orbit_app in ND. exact (NoDup_app_remove_r _ _ ND).
Qed.

(** A post that the filter counts for a candidate carries its scripture
    and its text, so it is counted for that candidate only. *)
Lemma isRecentUse_same_candidate (v v' : VerseReference) (c c' : Z) (p : Post) :
  isRecentUse v c p = true -> isRecentUse v' c' p = true -> v = v'.
Proof.
  unfold isRecentUse. rewrite !andb_true_iff, !String.eqb_eq, !Source_eqb_eq.
  intros [[T S] _] [[T' S'] _].
  assert (E : savedVerseReference v = savedVerseReference v')
    by (change (verseString v = verseString v'); congruence).
  destruct (savedVerseReference_inj v v' E) as [EC EV].
  destruct v, v'. cbn in *. congruence.
Qed.

(** Distinct candidates that are all rejected, at whatever instants, need
    as many posts. *)
Lemma rejections_need_posts :
  forall (candidates : list VerseReference) (h : list Post),
    NoDup candidates ->
    (forall v, In v candidates ->
               exists c p, In p h /\ isRecentUse v c p = true) ->
    (List.length candidates <= List.length h)%nat.
Proof.
  induction candidates as [|v rest IH]; intros h ND Ex; [cbn; lia|].
  inversion ND as [|? ? Hv NDr]; subst.
  destruct (Ex v (or_introl eq_refl)) as [c [p [Hp Rp]]].
  destruct (in_split p h Hp) as [h1 [h2 ->]].
  assert (L : (List.length rest <= List.length (h1 ++ h2))%nat).
  { apply (IH _ NDr). intros v' Hv'.
    destruct (Ex v' (or_intror Hv')) as [c' [p' [Hp' Rp']]].
    exists c', p'. split; [|exact Rp'].
    apply in_app_or in Hp'. apply in_or_app.
    destruct Hp' as [Hin | [<- | Hin]]; [left; exact Hin | | right; exact Hin].
    exfalso. apply Hv.
    rewrite (isRecentUse_same_candidate v v' _ _ p Rp Rp'). exact Hv'. }
  rewrite length_app in *. cbn [List.length]. lia.
Qed.

(** X18 — [getNextVerse] never rejects more candidates than the history has
    posts: after a valid last post, with a history of fewer than 1000 posts,
    it returns a verse after at most as many rejections as there are posts,
    and so never throws the exhaustion error. *)
Theorem rejections_bounded_by_history
        (w : World) (h : list Post) (last : VerseReference) :
  valid last -> lastVerse w = Ok (Some last) -> SameHistory w h ->
  (List.length h < 1000)%nat ->
  exists k,
    (k <= List.length h)%nat
    /\ run getNextVerse w = Some (Ok (candidate last k), mkReads 1 (S k) (S k)).
Proof.
  intros V HL HS HN.
  rewrite (getNextVerse_sameHistory w h last HL HS).
  change (Z.to_nat maxAttempts) with 1000%nat.
  assert (Bound : forall n,
             (n <= 1000)%nat ->
             (forall i, (i < n)%nat ->
                recentIn h (clock w (0 + i)%nat)
                         (iter i getNextSequentialVerse
                               (getNextSequentialVerse last)) = true) ->
             (n <= List.length h)%nat).
  { intros n Hn HR.
    rewrite <- (orbit_length _ getNextSequentialVerse n
                             (getNextSequentialVerse last)).
    apply rejections_need_posts.
    - apply candidates_NoDup; [exact V | unfold totalVerses; lia].
    - intros v Hv. apply orbit_In in Hv. destruct Hv as [i [Hi ->]].
      specialize (HR i Hi). unfold recentIn in HR.
      apply existsb_exists in HR. destruct HR as [p [Hp Rp]].
      eexists _, p. split; [exact Hp | exact Rp]. }
  destruct (firstAccepted h (clock w) 0 (getNextSequentialVerse last) 1000)
    as [k|] eqn:F.
  - exists k. split; [|reflexivity].
    apply firstAccepted_Some in F. destruct F as [Hk [_ HB]].
    apply Bound; [lia | exact HB].
  - exfalso.
    pose proof (proj1 (firstAccepted_None h (clock w) 1000 0 _) F) as HB.
    pose proof (Bound 1000%nat ltac:(lia) HB). lia.
Qed.

Lemma rejections_bounded_by_history_witness :
  exists k,
    (k <= 1)%nat
    /\ run getNextVerse oneBlockWorld
       = Some (Ok (candidate gita_2_13 k), mkReads 1 (S k) (S k)).
Proof.
  apply (rejections_bounded_by_history oneBlockWorld
           [mkPost BhagavadGita "2.14" (subDays sampleNow 100)] gita_2_13).
  - reflexivity.
  - reflexivity.
  - apply stableWorld_sameHistory.
  - cbn. lia.
Defined.




(** * The content validator *)

Lemma dropLeading_all (p : ascii -> bool) (s : string) :
  allChars p s = true -> dropLeading p s = EmptyString.
Proof.
  induction s as [|c s IH]; cbn [allChars dropLeading]; [reflexivity|].
  intro H. apply andb_true_iff in H. destruct H as [Hc Hs].
  rewrite Hc. exact (IH Hs).
Qed.

Lemma no_words_all_whitespace (s : string) :
  forall b,
    List.length (filter (fun word => (0 <? String.length word)%nat)
                        (splitRuns isWhitespace b s)) = 0%nat ->
    allChars isWhitespace s = true.
Proof.
  induction s as [|c s IH]; intro b; cbn [splitRuns allChars]; [reflexivity|].
  destruct (isWhitespace c) eqn:E; cbn [andb].
  - destruct b; cbn [filter String.length Nat.ltb Nat.leb]; apply IH.
  - destruct (splitRuns isWhitespace false s) as [|piece pieces];
      cbn [filter String.length Nat.ltb Nat.leb List.length]; discriminate.
Qed.

Lemma words_of_notBlank (s : string) :
  ContentParser.isBlank s = false -> (1 <= countWords s)%nat.
Proof.
  intro H. destruct (Nat.eq_dec (countWords s) 0) as [E | NE]; [|lia].
  exfalso. apply no_words_all_whitespace in E.
  destruct s as [|c s]; [discriminate H|].
  unfold ContentParser.isBlank, trim in H.
  rewrite (dropLeading_all isWhitespace _ E) in H. discriminate H.
Qed.

Lemma length_of_notBlank (s : string) :
  ContentParser.isBlank s = false ->
  ContentParser.nonEmpty s = true /\ (1 <= String.length s)%nat.
Proof.
  destruct s as [|c s]; [discriminate|]. intros _.
  split; [reflexivity | cbn [String.length]; lia].
Qed.

Lemma pushIf_app (condition : bool) (text : string) (l : list string) :
  (List.length (ContentParser.pushIf condition text ++ l) =? 0)%nat
  = negb condition && (List.length l =? 0)%nat.
Proof. destruct condition; reflexivity. Qed.

Lemma pushIf_last (condition : bool) (text : string) :
  (List.length (ContentParser.pushIf condition text) =? 0)%nat = negb condition.
Proof. destruct condition; reflexivity. Qed.

(** X20 — the validator accepts a content exactly when none of its seven text
    fields is blank, the title has at most 100 characters, the verse
    excerpt at most 40 words and the SEO description at most 160
    characters, and the stated word count lies between 700 and 900: the
    lower bounds on the title, the excerpt and the description follow from
    their not being blank. *)
Theorem validate_accepts (content : ContentParser.GeneratedContent) :
  ContentParser.asciiContent content ->
  ContentParser.valid (ContentParser.validate content) = true
  <-> ContentParser.isBlank (ContentParser.title content) = false
      /\ ContentParser.isBlank (ContentParser.verseExcerpt content) = false
      /\ ContentParser.isBlank (ContentParser.explanation content) = false
      /\ ContentParser.isBlank (ContentParser.reflection content) = false
      /\ ContentParser.isBlank (ContentParser.practicalApplication content) = false
      /\ ContentParser.isBlank (ContentParser.closingLine content) = false
      /\ ContentParser.isBlank (ContentParser.seoDescription content) = false
      /\ (String.length (ContentParser.title content) <= 100)%nat
      /\ (countWords (ContentParser.verseExcerpt content) <= 40)%nat
      /\ (String.length (ContentParser.seoDescription content) <= 160)%nat
      /\ 700 <= ContentParser.wordCount content <= 900.
Proof.
  intros _. destruct content as [t e x r a c d w].
  unfold ContentParser.validate.
  cbv beta iota zeta delta
      [ContentParser.valid ContentParser.title ContentParser.verseExcerpt
       ContentParser.explanation ContentParser.reflection
       ContentParser.practicalApplication ContentParser.closingLine
       ContentParser.seoDescription ContentParser.wordCount].
  rewrite !pushIf_app, pushIf_last, !andb_true_iff, !negb_true_iff.
  split.
  - intros [Bt [Be [Bx [Br [Ba [Bc [Bd [Lt [Le [Ld Lw]]]]]]]]]].
    destruct (length_of_notBlank t Bt) as [Nt _].
    destruct (length_of_notBlank e Be) as [Ne _].
    destruct (length_of_notBlank d Bd) as [Nd _].
    rewrite Nt in Lt. rewrite Ne in Le. rewrite Nd in Ld.
    rewrite andb_true_l in Lt, Le, Ld.
    apply orb_false_iff in Lt, Le, Ld, Lw.
    destruct Lt as [_ Lt], Le as [_ Le], Ld as [_ Ld], Lw as [Lw1 Lw2].
    apply Nat.ltb_ge in Lt, Le, Ld. apply Z.ltb_ge in Lw1, Lw2.
    repeat split; assumption.
  - intros [Bt [Be [Bx [Br [Ba [Bc [Bd [Lt [Le [Ld [Lw1 Lw2]]]]]]]]]]].
    destruct (length_of_notBlank t Bt) as [Nt Gt].
    destruct (length_of_notBlank e Be) as [Ne _].
    destruct (length_of_notBlank d Bd) as [Nd Gd].
    pose proof (words_of_notBlank e Be) as Ge.
    rewrite Nt, Ne, Nd, !andb_true_l.
    repeat split; try assumption;
      apply orb_false_iff; split;
      try (apply Nat.ltb_ge; lia); apply Z.ltb_ge; lia.
Qed.

Lemma validate_accepts_witness :
  ContentParser.valid
    (ContentParser.validate
       (ContentParser.mkContent "Finding Peace" "Never was there a time"
          "text" "text" "text" "Hare Krishna" "A daily reflection" 800))
  = true.
Proof.
  assert (A : ContentParser.asciiContent
                (ContentParser.mkContent "Finding Peace"
                   "Never was there a time" "text" "text" "text"
                   "Hare Krishna" "A daily reflection" 800)).
  { unfold ContentParser.asciiContent, isAscii.
    do 6 (split; [reflexivity|]). reflexivity. }
  apply (proj2 (validate_accepts _ A)).
  do 7 (split; [reflexivity|]).
  split; [vm_compute; lia|].
  split; [vm_compute; lia|].
  split; [vm_compute; lia|].
  cbn. lia.
Defined.
